(** * Recommendation scoring pipeline: a shallow embedding of
      [src/dataProcessing.js], [src/modelPrediction.js], the request handler
      of [src/server.js] and the input and label preparation of
      [src/modelTraining.js].

    Modelling conventions.
    - JavaScript numbers are [number]: NaN, the two infinities, or a finite
      value kept as an exact rational.  Arithmetic follows the IEEE rules for
      the special values and is exact on finite values: rounding (to binary64,
      or to float32 inside tensors), overflow to an infinity and the sign of
      zero are not modelled.
    - JavaScript strings are [string]s whose characters are the code units
      0..255.  Letter case is mapped on the ASCII letters, and additionally on
      the Latin-1 capitals for [toLowerCase]; this agrees with the platform on
      every comparison the program makes, all of which are against ASCII
      literals.
    - A JavaScript object used as a record is a [gmap string jsval]; an absent
      key reads as [undefined], i.e. [None].
    - A thrown exception is [Throw]; a function that may throw returns
      [result A].
    - The catalog and the arrays and objects the ranking builds live in a
      store of cells addressed by references, so that sharing and in-place
      updates are explicit; [getRecommendations] is a computation on that
      store.  The same ranking is also given on plain lists
      ([rankedProducts]), and [rankProducts_correct] relates the two.
    - Files are given by their content ([None] for a file that does not
      exist).  Of a request only the query parameter is kept, and of the
      answer its status and text, or the reference to the array sent as
      JSON.
    - Of training, the preparation of the inputs and of the labels is
      embedded; the network itself and its fitting are not. *)

From Stdlib Require Import QArith Qcanon Ascii String Sorted.
From stdpp Require Import base numbers option list strings gmap.

Local Open Scope Z_scope.

(** ** Numbers *)
Module JS.

Inductive number : Type :=
  | NaN
  | PInf
  | NInf
  | Fin (q : Qc).

Global Instance number_eq_dec : EqDecision number.
Proof. solve_decision. Defined.

Definition num_of_Z (z : Z) : number := Fin (Qc_of_Z z).
Definition zero : number := num_of_Z 0.

Definition isNaN (x : number) : bool :=
  match x with NaN => true | _ => false end.

Definition isFinite (x : number) : bool :=
  match x with Fin _ => true | _ => false end.

Definition neg (x : number) : number :=
  match x with
  | NaN => NaN | PInf => NInf | NInf => PInf
  | Fin q => Fin (- q)%Qc
  end.

Definition add (x y : number) : number :=
  match x, y with
  | NaN, _ | _, NaN => NaN
  | PInf, NInf | NInf, PInf => NaN
  | PInf, _ | _, PInf => PInf
  | NInf, _ | _, NInf => NInf
  | Fin a, Fin b => Fin (a + b)%Qc
  end.

Definition sub (x y : number) : number := add x (neg y).

(** Sign of a non-NaN number: [Lt], [Eq] (zero) or [Gt]. *)
Definition sign (x : number) : option comparison :=
  match x with
  | NaN => None
  | PInf => Some Gt
  | NInf => Some Lt
  | Fin q => Some (q ?= 0)%Qc
  end.

Definition mul (x y : number) : number :=
  match x, y with
  | Fin a, Fin b => Fin (a * b)%Qc
  | _, _ =>
    match sign x, sign y with
    | Some Eq, _ | _, Some Eq => NaN
    | Some Gt, Some Gt | Some Lt, Some Lt => PInf
    | Some Gt, Some Lt | Some Lt, Some Gt => NInf
    | _, _ => NaN
    end
  end.

Definition div (x y : number) : number :=
  match x, y with
  | NaN, _ | _, NaN => NaN
  | Fin a, Fin b =>
    if decide (b = 0%Qc) then
      match (a ?= 0)%Qc with Eq => NaN | Gt => PInf | Lt => NInf end
    else Fin (a / b)%Qc
  | Fin _, _ => zero
  | _, Fin b =>
    match sign x, (b ?= 0)%Qc with
    | Some Gt, Lt | Some Lt, (Gt | Eq) => NInf
    | _, _ => PInf
    end
  | _, _ => NaN
  end.

(** [x < y], false as soon as one side is NaN. *)
Definition ltb (x y : number) : bool :=
  match x, y with
  | NaN, _ | _, NaN => false
  | _, NInf | PInf, _ => false
  | NInf, _ | _, PInf => true
  | Fin a, Fin b => bool_decide (a < b)%Qc
  end.

(** [x === y] on numbers. *)
Definition eqb (x y : number) : bool :=
  match x, y with
  | NaN, _ | _, NaN => false
  | _, _ => bool_decide (x = y)
  end.

Definition leb (x y : number) : bool := ltb x y || eqb x y.
Definition gtb (x y : number) : bool := ltb y x.
Definition geb (x y : number) : bool := leb y x.

(** ToBoolean on a number. *)
Definition truthy (x : number) : bool :=
  match x with
  | NaN => false
  | Fin q => negb (bool_decide (q = 0%Qc))
  | _ => true
  end.

(** [x || 0] on a number. *)
Definition or0 (x : number) : number := if truthy x then x else zero.

(** *** Characters and strings *)

Definition code (c : ascii) : Z := Z.of_N (N_of_ascii c).

Definition isDigit (c : ascii) : bool := (48 <=? code c) && (code c <=? 57).
Definition isUpper (c : ascii) : bool := (65 <=? code c) && (code c <=? 90).
Definition isLower (c : ascii) : bool := (97 <=? code c) && (code c <=? 122).
(** The character class [[A-Za-z]]. *)
Definition isLetter (c : ascii) : bool := isUpper c || isLower c.
(** The character class [[\d\.]]. *)
Definition isDigitOrDot (c : ascii) : bool := isDigit c || (code c =? 46).
(** White space and line terminators below code unit 256. *)
Definition isWhite (c : ascii) : bool :=
  ((9 <=? code c) && (code c <=? 13)) || (code c =? 32) || (code c =? 160).

Definition shift (c : ascii) (d : Z) : ascii :=
  ascii_of_N (Z.to_N (code c + d)).

Definition lowerChar (c : ascii) : ascii :=
  if isUpper c then shift c 32
  else if (192 <=? code c) && (code c <=? 222) && negb (code c =? 215)
       then shift c 32
  else c.

Definition upperChar (c : ascii) : ascii :=
  if isLower c then shift c (-32) else c.

Fixpoint mapString (f : ascii -> ascii) (s : string) : string :=
  match s with
  | EmptyString => EmptyString
  | String c s' => String (f c) (mapString f s')
  end.

Definition toLowerCase : string -> string := mapString lowerChar.
Definition toUpperCase : string -> string := mapString upperChar.

Fixpoint allChars (p : ascii -> bool) (s : string) : bool :=
  match s with
  | EmptyString => true
  | String c s' => p c && allChars p s'
  end.

(** Longest prefix of [s] whose characters satisfy [p], and the rest. *)
Fixpoint span (p : ascii -> bool) (s : string) : string * string :=
  match s with
  | EmptyString => (EmptyString, EmptyString)
  | String c s' =>
    if p c then let '(a, b) := span p s' in (String c a, b)
    else (EmptyString, s)
  end.

Definition isEmpty (s : string) : bool :=
  match s with EmptyString => true | _ => false end.

(** [s.includes(needle)]. *)
Fixpoint includes (needle s : string) : bool :=
  String.prefix needle s ||
  match s with
  | EmptyString => false
  | String _ s' => includes needle s'
  end.

Fixpoint trimStart (s : string) : string :=
  match s with
  | String c s' => if isWhite c then trimStart s' else s
  | EmptyString => EmptyString
  end.

(** *** parseInt and parseFloat *)

Definition digitVal (c : ascii) : Z :=
  if isDigit c then code c - 48
  else if isUpper c then code c - 55
  else code c - 87.

Definition isHexDigit (c : ascii) : bool :=
  isDigit c || ((65 <=? code c) && (code c <=? 70))
            || ((97 <=? code c) && (code c <=? 102)).

(** Value of a string of digits in radix [r], most significant first. *)
Fixpoint digitsValue (r : Z) (acc : Z) (s : string) : Z :=
  match s with
  | EmptyString => acc
  | String c s' => digitsValue r (acc * r + digitVal c) s'
  end.

Definition splitSign (s : string) : Z * string :=
  match s with
  | String "-" r => (-1, r)
  | String "+" r => (1, r)
  | _ => (1, s)
  end.

(** [parseInt(s)] with no radix argument: the integer read, [None] for NaN. *)
Definition parseIntZ (s : string) : option Z :=
  let '(sg, s1) := splitSign (trimStart s) in
  match s1 with
  | String "0" (String x r) =>
    if (code x =? 120) || (code x =? 88) then
      let '(ds, _) := span isHexDigit r in
      if isEmpty ds then None else Some (sg * digitsValue 16 0 ds)
    else
      let '(ds, _) := span isDigit s1 in
      if isEmpty ds then None else Some (sg * digitsValue 10 0 ds)
  | _ =>
    let '(ds, _) := span isDigit s1 in
    if isEmpty ds then None else Some (sg * digitsValue 10 0 ds)
  end.

Definition parseIntStr (s : string) : number :=
  match parseIntZ s with
  | Some z => num_of_Z z
  | None => NaN
  end.

Definition pow10 (e : Z) : Qc :=
  if 0 <=? e then Qc_of_Z (10 ^ e) else (/ Qc_of_Z (10 ^ (- e)))%Qc.

(** The optional ExponentPart: [[eE][+-]?digits]; 0 when there is none. *)
Definition exponentPart (s : string) : Z :=
  match s with
  | String c r =>
    if (code c =? 101) || (code c =? 69) then
      let '(sg, r') := splitSign r in
      let '(ds, _) := span isDigit r' in
      if isEmpty ds then 0 else sg * digitsValue 10 0 ds
    else 0
  | EmptyString => 0
  end.

(** [parseFloat(s)]: the longest prefix of the trimmed string that is a
    StrDecimalLiteral, NaN when there is none. *)
Definition parseFloatStr (s : string) : number :=
  let '(sg, s1) := splitSign (trimStart s) in
  if String.prefix "Infinity" s1 then (if sg =? 1 then PInf else NInf)
  else
    let '(ip, r1) := span isDigit s1 in
    let '(fp, r2) :=
      match r1 with
      | String "." r => span isDigit r
      | _ => (EmptyString, r1)
      end in
    if isEmpty ip && isEmpty fp then NaN
    else
      let mant := digitsValue 10 0 (ip +:+ fp) in
      let e := exponentPart r2 - Z.of_nat (String.length fp) in
      Fin (Qc_of_Z (sg * mant) * pow10 e)%Qc.

(** ToString of a field that may be absent. *)
Definition fieldToString (v : option string) : string :=
  default "undefined" v.

Definition parseInt (v : option string) : number := parseIntStr (fieldToString v).
Definition parseFloat (v : option string) : number := parseFloatStr (fieldToString v).

End JS.

Export JS.

(** Deciding equality of two closed numbers by evaluation. *)
Definition num_eqb (x y : number) : bool :=
  match x, y with
  | NaN, NaN | PInf, PInf | NInf, NInf => true
  | Fin a, Fin b => Qeq_bool a b
  | _, _ => false
  end.

(** ** Values, objects and exceptions *)

Inductive jsval : Type :=
  | VNum (n : number)
  | VStr (s : string).

Global Instance jsval_eq_dec : EqDecision jsval.
Proof. solve_decision. Defined.

Abbreviation object := (gmap string jsval).

Inductive exn : Type :=
  | TypeError      (* property access or call on undefined / a non-function *)
  | TensorError.   (* a tensor operation rejected its operands *)

Inductive result (A : Type) : Type :=
  | Ok (a : A)
  | Throw (e : exn).
Arguments Ok {A} a.
Arguments Throw {A} e.

Global Instance result_ret : MRet result := fun A a => Ok a.
Global Instance result_bind : MBind result := fun A B k r =>
  match r with
  | Ok a => k a
  | Throw e => Throw e
  end.

(** [v || 0] on a property that may be absent. *)
Definition orZero (v : option jsval) : jsval :=
  match v with
  | Some (VNum n) => VNum (or0 n)
  | Some (VStr s) => if isEmpty s then VNum zero else VStr s
  | None => VNum zero
  end.

(** [a || b] on a string field that may be absent. *)
Definition orStr (a : option string) (b : string) : string :=
  match a with
  | Some s => if isEmpty s then b else s
  | None => b
  end.

(** An object literal: later entries override earlier ones. *)
Definition objectLiteral (l : list (string * jsval)) : object :=
  list_to_map (reverse l).

(** [{...b, ...a}]: the entries of [a] override those of [b]. *)
Definition spread (a b : object) : object := a ∪ b.

(** ** src/dataProcessing.js *)
Module dataProcessing.

(** A row as the CSV parser yields it: every present field is a string. *)
Abbreviation rawCustomer := (gmap string string).

(** [s.match(/([\d\.]+)([A-Za-z]+)/)] tried at the start of [s].  The two
    character classes are disjoint, so giving back characters of the greedy
    first group never helps: the attempt succeeds exactly when the longest
    run of digits and dots is non-empty and is followed by a letter. *)
Definition speedMatchAt (s : string) : option (string * string) :=
  let '(g1, rest) := span isDigitOrDot s in
  if isEmpty g1 then None
  else
    let '(g2, _) := span isLetter rest in
    if isEmpty g2 then None else Some (g1, g2).

(** The unanchored match: the leftmost start position that succeeds. *)
Fixpoint speedMatch (s : string) : option (string * string) :=
  match speedMatchAt s with
  | Some m => Some m
  | None =>
    match s with
    | EmptyString => None
    | String _ s' => speedMatch s'
    end
  end.

Definition networkSpeed (field : option string) : number :=
  match field with
  | Some s =>
    if isEmpty s then zero
    else
      match speedMatch s with
      | Some (g1, g2) =>
        let speedValue := parseFloatStr g1 in
        let speedUnit := toUpperCase g2 in
        if String.eqb speedUnit "M" then speedValue
        else if String.eqb speedUnit "G" then mul speedValue (num_of_Z 1000)
        else speedValue
      | None => zero
      end
  | None => zero
  end.

Definition coverageSize (extenders totalDevices : number) : string :=
  if geb extenders (num_of_Z 2) || gtb totalDevices (num_of_Z 15) then "Large"
  else if eqb extenders zero && leb totalDevices (num_of_Z 5) then "Small"
  else "Medium".

(** [f && (f.toLowerCase() === 'true' || f.toLowerCase() === '1') ? 1 : 0] *)
Definition flag (field : option string) : number :=
  match field with
  | Some s =>
    if negb (isEmpty s) &&
       (String.eqb (toLowerCase s) "true" || String.eqb (toLowerCase s) "1")
    then num_of_Z 1 else zero
  | None => zero
  end.

Definition states : list string :=
  ["TX"; "CA"; "CT"; "FL"; "OH"; "IN"; "PA"; "WV"; "IL"; "NV"].

Definition stateKey (state : string) : string := "state_" +:+ state.

(** [states.forEach(state => { o[`state_${state}`] = f(state) })] on [{}]. *)
Definition forEachState (f : string -> jsval) : object :=
  foldl (fun o state => <[stateKey state := f state]> o) ∅ states.

Definition stateBit (field : option string) (state : string) : jsval :=
  match field with
  | Some s =>
    if negb (isEmpty s) && String.eqb (toUpperCase s) state
    then VNum (num_of_Z 1) else VNum zero
  | None => VNum zero
  end.

Definition numField (customer : rawCustomer) (k : string) : jsval :=
  VNum (or0 (parseFloat (customer !! k))).

(** The function mapped over the rows in [loadCustomerData]. *)
Definition processCustomer (customer : rawCustomer) : object :=
  let wirelessClients := or0 (parseInt (customer !! "wireless_clients_count")) in
  let wiredClients := or0 (parseInt (customer !! "wired_clients_count")) in
  let totalDevices := add wirelessClients wiredClients in
  let avgBandwidthUsage := or0 (parseFloat (customer !! "rx_avg_bps")) in
  let networkSpeed := networkSpeed (customer !! "network_speed") in
  let extenders := or0 (parseInt (customer !! "extenders")) in
  let coverageSize := coverageSize extenders totalDevices in
  let wifiSecurity := flag (customer !! "wifi_security") in
  let wifiSecurityPlus := flag (customer !! "wifi_security_plus") in
  let totalShield := flag (customer !! "total_shield") in
  let stateOneHot := forEachState (stateBit (customer !! "state")) in
  spread stateOneHot (objectLiteral [
    ("customerName",
      VStr (orStr (customer !! "CustomerName")
             (orStr (customer !! "customerName")
               (orStr (customer !! "customer_name") ""))));
    ("total_devices", VNum totalDevices);
    ("avg_bandwidth_usage", VNum avgBandwidthUsage);
    ("network_speed", VNum networkSpeed);
    ("coverage_size", VStr coverageSize);
    ("wifi_security", VNum wifiSecurity);
    ("wifi_security_plus", VNum wifiSecurityPlus);
    ("total_shield", VNum totalShield);
    ("rx_avg_bps",
      VNum (let x := parseFloat (customer !! "rx_avg_bps") in
            if truthy x then x
            else or0 (parseFloat (customer !! "rxAvgBps"))));
    ("tx_avg_bps", numField customer "tx_avg_bps");
    ("rx_p95_bps", numField customer "rx_p95_bps");
    ("tx_p95_bps", numField customer "tx_p95_bps");
    ("rx_max_bps", numField customer "rx_max_bps");
    ("tx_max_bps", numField customer "tx_max_bps");
    ("rssi_mean", numField customer "rssi_mean");
    ("rssi_median", numField customer "rssi_median");
    ("rssi_max", numField customer "rssi_max");
    ("rssi_min", numField customer "rssi_min")
  ]).

Definition coverageSizes : list string := ["Small"; "Medium"; "Large"].

(** The object [preprocessCustomers] returns for a customer whose
    [coverage_size] is the string [cs]. *)
Definition oneHotEncoded (customer : object) (cs : string) : object :=
  let coverageSizeOneHot :=
    foldl (fun o size =>
             <["coverage_size_" +:+ size :=
                if String.eqb (toLowerCase cs) (toLowerCase size)
                then VNum (num_of_Z 1) else VNum zero]> o)
          ∅ coverageSizes in
  let stateOneHot :=
    forEachState (fun state =>
      match customer !! stateKey state with
      | Some (VNum n) =>
        if eqb n (num_of_Z 1) then VNum (num_of_Z 1) else VNum zero
      | _ => VNum zero
      end) in
  spread stateOneHot (spread coverageSizeOneHot customer).

(** The function mapped over the customers in [preprocessCustomers].
    [customer.coverage_size.toLowerCase()] throws unless the property is a
    string. *)
Definition preprocessCustomer (customer : object) : result object :=
  match customer !! "coverage_size" with
  | Some (VStr cs) => Ok (oneHotEncoded customer cs)
  | _ => Throw TypeError
  end.

End dataProcessing.

(** ** src/modelPrediction.js *)
Module modelPrediction.
Import dataProcessing.

Record Product : Type := {
  name : string;
  features : list string;
  price : number;
}.

(** The objects built by [products.map] at the start of the ranking. *)
Record RankedProduct : Type := {
  rank : nat;
  productName : string;
  score : option number;     (* [predictionArray[index]], absent past its end *)
  rfeatures : list string;
  rprice : number;
}.

(** The objects returned to the caller. *)
Record Recommendation : Type := {
  rank' : nat;
  productName' : string;
  score' : option number;
  price' : number;
  explanation : string;
}.

Record NormalizationData : Type := {
  inputMax : list number;
  inputMin : list number;
}.

(** The loaded model: [model.predict(x).arraySync()[0]]. *)
Definition Model : Type := list number -> result (list number).

Definition continuousFeatures : list string :=
  ["total_devices"; "avg_bandwidth_usage"; "network_speed"; "tx_avg_bps";
   "rx_p95_bps"; "tx_p95_bps"; "rx_max_bps"; "tx_max_bps"; "rssi_mean";
   "rssi_median"; "rssi_max"; "rssi_min"].

Definition categoricalFeatures : list string :=
  ["coverage_size_Small"; "coverage_size_Medium"; "coverage_size_Large";
   "state_TX"; "state_CA"; "state_CT"; "state_FL"; "state_OH"; "state_IN";
   "state_PA"; "state_WV"; "state_IL"; "state_NV"].

(** *** Tensors of shape [1, n] *)

(** [tf.tensor2d([values])] on numbers. *)
Definition tensor2d (values : list jsval) : result (list number) :=
  mapM (fun v => match v with VNum n => Ok n | VStr _ => Throw TensorError end)
       values.

(** An elementwise binary operation with broadcasting along the second axis. *)
Definition broadcast (f : number -> number -> number) (a b : list number)
  : result (list number) :=
  if decide (length a = length b) then Ok (zip_with f a b)
  else
    match a, b with
    | [x], _ => Ok (map (f x) b)
    | _, [y] => Ok (map (fun x => f x y) a)
    | _, _ => Throw TensorError
    end.

Definition epsilon : number := Fin (/ Qc_of_Z 100000000)%Qc.

(** [denom.add(denom.equal(0).mul(1e-8))] *)
Definition safeDenomOf (denom : list number) : list number :=
  let isZeroDenom :=
    map (fun d => if eqb d zero then num_of_Z 1 else zero) denom in
  zip_with add denom (map (fun b => mul b epsilon) isZeroDenom).

(** [inputTensor.sub(inputMin).div(safeDenom)] *)
Definition normalizeContinuous (inputTensor : list number)
    (normalizationData : NormalizationData) : result (list number) :=
  denom ← broadcast sub (inputMax normalizationData) (inputMin normalizationData);
  let safeDenom := safeDenomOf denom in
  centered ← broadcast sub inputTensor (inputMin normalizationData);
  broadcast div centered safeDenom.

(** *** Array.prototype.sort *)
Section sort.
Context {A : Type}.
(** The comparison function; a positive result puts its first argument
    after its second, and NaN counts as 0. *)
Variable comparefn : A -> A -> number.

Definition after (a b : A) : bool := gtb (comparefn a b) zero.

Fixpoint insertSorted (x : A) (l : list A) : list A :=
  match l with
  | [] => [x]
  | y :: l' => if after x y then y :: insertSorted x l' else x :: l
  end.

(** The sort is stable.  For a consistent comparison function the result
    of a stable sort does not depend on the algorithm; for the ranking this
    is [ranking_determined] below. *)
Fixpoint sort (l : list A) : list A :=
  match l with
  | [] => []
  | x :: l' => insertSorted x (sort l')
  end.
End sort.

(** ToNumber of a score that may be [undefined]. *)
Definition scoreNumber (s : option number) : number := default NaN s.

(** [(a, b) => b.score - a.score] *)
Definition byScoreDesc (a b : RankedProduct) : number :=
  sub (scoreNumber (score b)) (scoreNumber (score a)).

Definition setRank (index : nat) (product : RankedProduct) : RankedProduct :=
  {| rank := index + 1; productName := productName product;
     score := score product; rfeatures := rfeatures product;
     rprice := rprice product |}.

(** [products.map(...)], then [sort], then the [forEach] that renumbers. *)
Definition rankedProducts (products : list Product)
    (predictionArray : list number) : list RankedProduct :=
  let rankedProducts :=
    imap (fun index product =>
            {| rank := index + 1; productName := name product;
               score := predictionArray !! index;
               rfeatures := features product; rprice := price product |})
         products in
  let rankedProducts := sort byScoreDesc rankedProducts in
  imap setRank rankedProducts.

(** *** The store

    Arrays and objects are shared by reference.  The store is a list of
    cells, a reference is an index into it, and a new object goes at the end.
    The customer record is only ever read and stays a value. *)

Abbreviation loc := nat.

Inductive cell : Type :=
  | CFeatures (phrases : list string)
      (* an array of strings: a product's [features] *)
  | CProduct (name : string) (features : loc) (price : number)
      (* a catalog item *)
  | CRanked (rank : nat) (productName : string) (score : option number)
      (features : loc) (price : number)
      (* an object built by the first [map] of the ranking *)
  | CRecommendation (rank : nat) (productName : string)
      (score : option number) (price : number) (explanation : string)
      (* an object of the returned list *)
  | CArray (elements : list loc).
      (* an array of objects *)

Abbreviation heap := (list cell).

(** A computation on the store that may throw; the store survives a throw. *)
Definition ST (A : Type) : Type := heap -> result A * heap.

Global Instance ST_ret : MRet ST := fun A a h => (Ok a, h).
Global Instance ST_bind : MBind ST := fun A B k m h =>
  match m h with
  | (Ok a, h') => k a h'
  | (Throw e, h') => (Throw e, h')
  end.

Definition throw {A} (e : exn) : ST A := fun h => (Throw e, h).
Definition lift {A} (r : result A) : ST A := fun h => (r, h).

Definition alloc (c : cell) : ST loc := fun h => (Ok (length h), h ++ [c]).

(** Reading through a reference; a reference that holds nothing, or (in the
    callers) a cell of another kind than the code expects, is a TypeError. *)
Definition read (l : loc) : ST cell := fun h =>
  match h !! l with
  | Some c => (Ok c, h)
  | None => (Throw TypeError, h)
  end.

Definition write (l : loc) (c : cell) : ST unit := fun h =>
  (Ok tt, <[l := c]> h).

(** *** Explanations and the request pipeline *)
Section pipeline.
(** Number formatting and string-to-number conversion of the platform:
    [String(n)], [n.toFixed(digits)] and [Number(s)]. *)
Variable numberToString : number -> string.
Variable toFixed : number -> nat -> string.
Variable stringToNumber : string -> number.

(** ToString of a property read, as a template literal does it. *)
Definition toString (v : option jsval) : string :=
  match v with
  | Some (VStr s) => s
  | Some (VNum n) => numberToString n
  | None => "undefined"
  end.

Definition toNumber (v : option jsval) : number :=
  match v with
  | Some (VNum n) => n
  | Some (VStr s) => stringToNumber s
  | None => NaN
  end.

Definition isTruthy (v : option jsval) : bool :=
  match v with
  | Some (VNum n) => truthy n
  | Some (VStr s) => negb (isEmpty s)
  | None => false
  end.

Definition getState (customer : object) : string :=
  default "Unknown"
    (find (fun state =>
             bool_decide (customer !! stateKey state = Some (VNum (num_of_Z 1))))
          states).

Definition generateAIExplanation (customer : object)
    (product : RankedProduct) : string :=
  let name :=
    if isTruthy (customer !! "customerName")
    then toString (customer !! "customerName") else "Valued Customer" in
  let devices := toString (customer !! "total_devices") in
  let avgBandwidth :=
    toFixed (div (toNumber (customer !! "avg_bandwidth_usage"))
                 (num_of_Z 1000000)) 2 in
  let coverageSize := toString (customer !! "coverage_size") in
  let networkSpeed := toString (customer !! "network_speed") in
  let state := getState customer in
  let pn := productName product in
  let lower := toLowerCase pn in
  let explanation :=
    "Hi " +:+ name +:+ ", based on your current setup, we recommend "
      +:+ pn +:+ "." in
  if includes "fiber" lower then
    explanation +:+ " With your network speed of " +:+ networkSpeed
      +:+ " Mbps and average bandwidth usage of " +:+ avgBandwidth
      +:+ " Mbps, upgrading to " +:+ pn
      +:+ " can provide you with faster and more reliable internet connectivity."
  else if includes "whole-home wi-fi" lower then
    explanation +:+ " Considering you have " +:+ devices
      +:+ " devices and a " +:+ coverageSize +:+ " coverage area, " +:+ pn
      +:+ " can help eliminate dead zones and ensure seamless connectivity throughout your home."
  else if includes "wi-fi security plus" lower then
    explanation +:+ " Enhancing your security with " +:+ pn
      +:+ " ensures comprehensive protection for all your devices, safeguarding against potential threats and vulnerabilities."
  else if includes "wi-fi security" lower then
    explanation +:+ " To protect your network from malicious sites and potential cyber threats, "
      +:+ pn +:+ " offers advanced security features tailored to your needs."
  else if includes "total shield" lower then
    explanation +:+ " Given your high bandwidth usage and the need for robust security measures, "
      +:+ pn +:+ " provides comprehensive protection for your network and devices."
  else if includes "my premium tech pro" lower then
    explanation +:+ " Managing " +:+ devices +:+ " devices can be challenging. "
      +:+ pn
      +:+ " offers premium technical support to ensure all your devices run smoothly and efficiently."
  else if includes "identity protection" lower then
    explanation +:+ " Living in " +:+ state +:+ ", " +:+ pn
      +:+ " helps safeguard your personal information, ensuring your data remains secure and protected from unauthorized access."
  else if includes "youtube tv" lower then
    explanation +:+ " With your streaming needs and network capabilities, "
      +:+ pn
      +:+ " offers a seamless TV experience without the need for additional hardware."
  else if includes "additional extender" lower then
    explanation +:+ " To enhance your Wi-Fi coverage, " +:+ pn
      +:+ " can help eliminate dead zones and ensure a strong signal throughout your property."
  else if includes "battery back-up for unbreakable wi-fi" lower then
    explanation +:+ " Ensure uninterrupted internet access during outages with "
      +:+ pn +:+ ", providing reliable backup power for your network."
  else if includes "unbreakable wi-fi" lower then
    explanation +:+ " Maintain a stable internet connection even during unexpected outages with "
      +:+ pn +:+ ", ensuring your connectivity remains uninterrupted."
  else
    explanation +:+ " " +:+ String.concat " " (rfeatures product)
      +:+ ". Consider adding it to enhance your internet experience.".

(** The last [map] of [getRecommendations]. *)
Definition withExplanation (customer : object) (product : RankedProduct)
  : Recommendation :=
  {| rank' := rank product; productName' := productName product;
     score' := score product; price' := rprice product;
     explanation := generateAIExplanation customer product |}.

(** The list [getRecommendations] builds once the prediction is at hand:
    the ranked products, each with its explanation. *)
Definition rankedProductsWithExplanations (preprocessedCustomer : object)
    (products : list Product) (predictionArray : list number)
  : list Recommendation :=
  withExplanation preprocessedCustomer
    <$> rankedProducts products predictionArray.

(** **** The same steps on the store *)

(** [products.map((product, index) => ({...}))]: one new object per
    catalog item; [features] is the product's own array, not a copy. *)
Fixpoint mapProducts (predictionArray : list number) (index : nat)
    (products : list loc) : ST (list loc) :=
  match products with
  | [] => mret []
  | product :: rest =>
    c ← read product;
    match c with
    | CProduct name features price =>
      r ← alloc (CRanked (index + 1) name (predictionArray !! index)
                   features price);
      rs ← mapProducts predictionArray (S index) rest;
      mret (r :: rs)
    | _ => throw TypeError
    end
  end.

(** The score read through a reference, as the comparison does. *)
Definition scoreAt (h : heap) (l : loc) : number :=
  match h !! l with
  | Some (CRanked _ _ s _ _) => scoreNumber s
  | _ => NaN
  end.

(** [rankedProducts.sort((a, b) => b.score - a.score)], in place. *)
Definition sortByScore (rankedProducts : loc) : ST unit := fun h =>
  match h !! rankedProducts with
  | Some (CArray elements) =>
    let sorted :=
      sort (fun a b => sub (scoreAt h b) (scoreAt h a)) elements in
    (Ok tt, <[rankedProducts := CArray sorted]> h)
  | _ => (Throw TypeError, h)
  end.

(** [rankedProducts.forEach((product, index) => { product.rank = index + 1 })] *)
Fixpoint forEachRank (index : nat) (elements : list loc) : ST unit :=
  match elements with
  | [] => mret tt
  | product :: rest =>
    c ← read product;
    match c with
    | CRanked _ name s features price =>
      write product (CRanked (index + 1) name s features price);;
      forEachRank (S index) rest
    | _ => throw TypeError
    end
  end.

(** [rankedProducts.map(product => ({..., explanation}))] *)
Fixpoint mapExplanations (customer : object) (elements : list loc)
  : ST (list loc) :=
  match elements with
  | [] => mret []
  | product :: rest =>
    c ← read product;
    match c with
    | CRanked rank name s features price =>
      fs ← read features;
      match fs with
      | CFeatures phrases =>
        let explanation :=
          generateAIExplanation customer
            {| rank := rank; productName := name; score := s;
               rfeatures := phrases; rprice := price |} in
        r ← alloc (CRecommendation rank name s price explanation);
        rs ← mapExplanations customer rest;
        mret (r :: rs)
      | _ => throw TypeError
      end
    | _ => throw TypeError
    end
  end.

(** The debugging log of the first three entries calls [score.toFixed(4)],
    which throws on an [undefined] score. *)
Fixpoint logEach (elements : list loc) : ST unit :=
  match elements with
  | [] => mret tt
  | prod :: rest =>
    c ← read prod;
    match c with
    | CRecommendation _ _ (Some _) _ _ => logEach rest
    | _ => throw TypeError
    end
  end.

Definition readArray (l : loc) : ST (list loc) :=
  c ← read l;
  match c with
  | CArray elements => mret elements
  | _ => throw TypeError
  end.

(** The ranking part of [getRecommendations]: the [map] that pairs products
    with scores, the sort and the renumbering.  The result is the local
    array [rankedProducts]. *)
Definition rankProducts (predictionArray : list number) (products : loc)
  : ST loc :=
  catalog ← readArray products;
  created ← mapProducts predictionArray 0 catalog;
  rankedProducts ← alloc (CArray created);
  sortByScore rankedProducts;;
  sorted ← readArray rankedProducts;
  forEachRank 0 sorted;;
  mret rankedProducts.

(** The rest of [getRecommendations]: the [map] that adds the explanations,
    the debugging log, and the return. *)
Definition explainRanked (preprocessedCustomer : object) (rankedProducts : loc)
  : ST loc :=
  sorted ← readArray rankedProducts;
  explained ← mapExplanations preprocessedCustomer sorted;
  rankedProductsWithExplanations ← alloc (CArray explained);
  logEach (take 3 explained);;
  mret rankedProductsWithExplanations.

Definition rankAndExplain (preprocessedCustomer : object)
    (predictionArray : list number) (products : loc) : ST loc :=
  rankedProducts ← rankProducts predictionArray products;
  explainRanked preprocessedCustomer rankedProducts.

(** [getRecommendations(customer, products)].  [model] is the module-level
    handle after [loadModel()] ([None] when loading failed),
    [normalizationData] is what [loadNormalizationData()] returns ([None]
    for [null], when the file is missing), and [products] is the reference
    to the shared catalog array.  The result is a reference to a new
    array. *)
Definition getRecommendations (model : option Model)
    (normalizationData : option NormalizationData)
    (customer : object) (products : loc) : ST loc :=
  preprocessedCustomer ← lift (preprocessCustomer customer);
  let inputContinuous :=
    map (fun feature => orZero (preprocessedCustomer !! feature))
        continuousFeatures in
  let inputCategorical :=
    map (fun feature => orZero (preprocessedCustomer !! feature))
        categoricalFeatures in
  match normalizationData with
  | None => alloc (CArray [])
  | Some normalizationData =>
    inputTensor ← lift (tensor2d inputContinuous);
    normalizedContinuousInput ←
      lift (normalizeContinuous inputTensor normalizationData);
    categoricalTensor ← lift (tensor2d inputCategorical);
    let normalizedInput := normalizedContinuousInput ++ categoricalTensor in
    predict ← match model with
              | Some m => mret m
              | None => throw TypeError
              end;
    predictionArray ← lift (predict normalizedInput);
    rankAndExplain preprocessedCustomer predictionArray products
  end.
End pipeline.

End modelPrediction.

Import dataProcessing modelPrediction.

(** ** Readings used to state the properties *)

(** The integer a count field contributes: [parseInt(field) || 0]. *)
Definition intField (field : option string) : Z :=
  default 0 (parseIntZ (fieldToString field)).

(** Somewhere in [s] a digit or dot is immediately followed by a letter. *)
Fixpoint hasNumberUnit (s : string) : bool :=
  match s with
  | String c1 ((String c2 _) as rest) =>
    (isDigitOrDot c1 && isLetter c2) || hasNumberUnit rest
  | _ => false
  end.

(** Extraction as the pipeline runs it: the row mapping of
    [loadCustomerData] followed by the one-hot step of [preprocessCustomers]. *)
Definition extract (raw : rawCustomer) : result object :=
  preprocessCustomer (processCustomer raw).

(** The continuous features that are read from a field of the same name. *)
Definition floatFields : list string :=
  ["tx_avg_bps"; "rx_p95_bps"; "tx_p95_bps"; "rx_max_bps"; "tx_max_bps";
   "rssi_mean"; "rssi_median"; "rssi_max"; "rssi_min"].

Definition isBit (v : jsval) : Prop := v = VNum zero \/ v = VNum (num_of_Z 1).

(** [Math.max] on two numbers. *)
Definition numMax (x y : number) : number :=
  match x, y with
  | NaN, _ | _, NaN => NaN
  | _, _ => if ltb x y then y else x
  end.

(** The normalization formula in the words of the specification:
    [(value - min) / max(max - min, epsilon)]. *)
Definition specNormalized (v mn mx : number) : number :=
  div (sub v mn) (numMax (sub mx mn) epsilon).

(** The divisor the code uses: the range, or epsilon when the range is 0. *)
Definition safeDenom1 (d : number) : number :=
  if eqb d zero then epsilon else d.

(** What a ranked entry shows of a catalog item: name, score and price. *)
Definition scored : Type := string * option number * number.

Definition scoreOf (e : scored) : option number := e.1.2.

(** [(a, b) => b.score - a.score] on such entries. *)
Definition byScore (a b : scored) : number :=
  sub (scoreNumber (scoreOf b)) (scoreNumber (scoreOf a)).

(** The catalog in load order, each item with the score at its index. *)
Definition catalogScored (products : list Product)
    (predictionArray : list number) : list scored :=
  imap (fun index product =>
          (name product, predictionArray !! index, price product)) products.

Definition rankedScored (r : RankedProduct) : scored :=
  (productName r, score r, rprice r).

Definition recScored (r : Recommendation) : scored :=
  (productName' r, score' r, price' r).

(** [a] may come before [b] in a ranking by descending score. *)
Definition descending (a b : option number) : Prop :=
  leb (scoreNumber b) (scoreNumber a) = true.

(** The entries of [l] whose score is exactly [s], in the order of [l]. *)
Definition withScore (s : option number) (l : list scored) : list scored :=
  filter (fun e => scoreOf e = s) l.

(** A specification of a store computation: from a store satisfying [P], a
    normal end satisfies [Q] and a throw leaves a store satisfying [E]. *)
Definition triple {A} (P : heap -> Prop) (m : ST A)
    (Q : A -> heap -> Prop) (E : heap -> Prop) : Prop :=
  forall h, P h ->
    match m h with
    | (Ok a, h') => Q a h'
    | (Throw _, h') => E h'
    end.

(** A reference that did not exist in the store [h0]. *)
Definition isNew (h0 : heap) (l : loc) : Prop := (length h0 <= l)%nat.

(** Every object of [h0] is in [h] as it was, and the arrays created since
    hold only objects created since. *)
Definition untouched (h0 h : heap) : Prop :=
  h0 `prefix_of` h
  /\ forall l els, isNew h0 l -> h !! l = Some (CArray els) ->
                   Forall (isNew h0) els.

(** [m] leaves [h0] untouched whether it ends normally or throws, and its
    result satisfies [φ]. *)
Definition keeps (h0 : heap) {A} (m : ST A) (φ : A -> Prop) : Prop :=
  triple (untouched h0) m (fun a h => untouched h0 h /\ φ a) (untouched h0).

Definition isObject (c : cell) : Prop :=
  match c with CArray _ => False | _ => True end.

(** The catalog entries tagged with their catalog index. *)
Definition catalogIndexed (products : list Product)
    (predictionArray : list number) : list (nat * scored) :=
  imap (fun index product =>
          (index, (name product, predictionArray !! index, price product)))
       products.

(** The catalog index of the item found at each position of the ranking. *)
Definition rankingOrder (products : list Product)
    (predictionArray : list number) : list nat :=
  fst <$> sort (fun a b => byScore a.2 b.2)
               (catalogIndexed products predictionArray).

(** *** Reading values off the store *)

(** The reference [l] holds the catalog item [p]. *)
Definition productAt (h : heap) (l : loc) (p : Product) : Prop :=
  exists f, h !! l = Some (CProduct (name p) f (price p))
            /\ h !! f = Some (CFeatures (features p)).

(** The reference [c] holds the catalog [ps], in this order. *)
Definition catalogAt (h : heap) (c : loc) (ps : list Product) : Prop :=
  exists ls, h !! c = Some (CArray ls) /\ Forall2 (productAt h) ls ps.

Definition rankedAt (h : heap) (l : loc) (r : RankedProduct) : Prop :=
  exists f, h !! l = Some (CRanked (rank r) (productName r) (score r) f (rprice r))
            /\ h !! f = Some (CFeatures (rfeatures r)).

(** The reference [l] holds the list of ranked products [rs]. *)
Definition rankedArrayAt (h : heap) (l : loc) (rs : list RankedProduct) : Prop :=
  exists ls, h !! l = Some (CArray ls) /\ Forall2 (rankedAt h) ls rs.

Definition recommendationCell (r : Recommendation) : cell :=
  CRecommendation (rank' r) (productName' r) (score' r) (price' r)
    (explanation r).

Definition recommendationAt (h : heap) (l : loc) (r : Recommendation) : Prop :=
  h !! l = Some (recommendationCell r).

(** The reference [l] holds the list of recommendations [rs]. *)
Definition recommendationsAt (h : heap) (l : loc) (rs : list Recommendation)
  : Prop :=
  exists ls, h !! l = Some (CArray ls) /\ Forall2 (recommendationAt h) ls rs.

(** The object the first [map] builds for the product at [index]. *)
Definition initialRanked (predictionArray : list number) (index : nat)
    (product : Product) : RankedProduct :=
  {| rank := index + 1; productName := name product;
     score := predictionArray !! index;
     rfeatures := features product; rprice := price product |}.

(** Every one of the first three recommendations has a score. *)
Definition top3Scored (rs : list Recommendation) : Prop :=
  Forall (fun r => is_Some (score' r)) (take 3 rs).

(** *** A worked request *)

(** Rank, name and explanation of each entry of the array at [l]. *)
Definition entriesAt (h : heap) (l : loc) : list (nat * string * string) :=
  match h !! l with
  | Some (CArray els) =>
    omap (fun e => match h !! e with
                   | Some (CRecommendation r n _ _ x) => Some (r, n, x)
                   | _ => None
                   end) els
  | _ => []
  end.

Definition sampleRow : rawCustomer :=
  {[ "CustomerName" := "Ada"; "network_speed" := "450.0M"; "state" := "ca";
     "extenders" := "0"; "wireless_clients_count" := "2";
     "wired_clients_count" := "1"; "wifi_security" := "False" ]}.

Definition sampleStore : heap :=
  [ CFeatures ["Fast"]; CProduct "Fiber 500" 0%nat (num_of_Z 50);
    CFeatures ["Safe"]; CProduct "Identity Protection" 2%nat (num_of_Z 10);
    CArray [1%nat; 3%nat] ].

Definition sampleNormalization : NormalizationData :=
  {| inputMax := replicate 12 (num_of_Z 1000);
     inputMin := replicate 12 zero |}.

Definition sampleModel : Model :=
  fun _ => Ok [Fin (Q2Qc (2 # 10)); Fin (Q2Qc (9 # 10))].

(** ** More of the string library: [trim] and [split] *)

Fixpoint trimEnd (s : string) : string :=
  match s with
  | EmptyString => EmptyString
  | String c s' =>
    let r := trimEnd s' in
    if isEmpty r && isWhite c then EmptyString else String c r
  end.

(** [s.trim()] *)
Definition trim (s : string) : string := trimEnd (trimStart s).

(** [s.startsWith(p)] *)
Definition startsWith (p s : string) : bool := String.prefix p s.

(** [s.split(sep)] for a separator that matches exactly one character, the
    characters [p] holds of: the pieces between the separators, empty pieces
    included. *)
Fixpoint splitBy (p : ascii -> bool) (s : string) : list string :=
  match s with
  | EmptyString => [EmptyString]
  | String c s' =>
    if p c then EmptyString :: splitBy p s'
    else
      match splitBy p s' with
      | piece :: pieces => String c piece :: pieces
      | [] => [String c EmptyString]
      end
  end.

(** ** src/dataProcessing.js: the product catalog *)
Module productCatalog.

Definition isNewline (c : ascii) : bool := code c =? 10.
Definition isBar (c : ascii) : bool := code c =? 124.

(** The characters of the class the feature text is split at.  The class is
    written with a full stop and the three characters U+00E2, U+20AC and
    U+00A2; the middle one is not a code unit below 256. *)
Definition isFeatureSeparator (c : ascii) : bool :=
  (code c =? 46) || (code c =? 226) || (code c =? 162).

(** [s.match(/\$([\d\.]+)/)]: the first group of the leftmost match. *)
Fixpoint priceMatch (s : string) : option string :=
  match s with
  | EmptyString => None
  | String c s' =>
    if code c =? 36 then
      let '(g, _) := span isDigitOrDot s' in
      if isEmpty g then priceMatch s' else Some g
    else priceMatch s'
  end.

(** [line.startsWith('|') && line.includes('Product Name')] *)
Definition isHeaderLine (line : string) : bool :=
  startsWith "|" line && includes "Product Name" line.

(** The body of [if (inTable && line.startsWith('|'))]: the product a table
    row yields, if it has enough columns. *)
Definition productOfRow (line : string) : option Product :=
  let columns := map trim (splitBy isBar line) in
  let columns := tail columns in                              (* shift() *)
  let columns := take (length columns - 1)%nat columns in     (* pop() *)
  match columns with
  | productName :: featuresText :: priceText :: _ =>
    let features :=
      filter (fun feature => feature <> EmptyString)
             (map trim (splitBy isFeatureSeparator featuresText)) in
    let price :=
      match priceMatch priceText with
      | Some g => parseFloatStr g
      | None => zero
      end in
    Some {| name := productName; features := features; price := price |}
  | _ => None
  end.

(** The loop over the lines; [inTable] is the flag of the same name.  At a
    header line the index is advanced by two and the loop's own increment
    follows, so the next two lines are not looked at. *)
Fixpoint scanLines (inTable : bool) (lines : list string) : list Product :=
  match lines with
  | [] => []
  | l :: rest =>
    let line := trim l in
    if isHeaderLine line then
      match rest with
      | _ :: _ :: rest' => scanLines true rest'
      | _ => []
      end
    else if inTable && startsWith "|" line then
      match productOfRow line with
      | Some product => product :: scanLines inTable rest
      | None => scanLines inTable rest
      end
    else scanLines inTable rest
  end.

(** [loadProductData()]; [file] is the content of [product_catalog.md],
    [None] when the file does not exist. *)
Definition loadProductData (file : option string) : list Product :=
  match file with
  | None => []
  | Some fileContent => scanLines false (splitBy isNewline fileContent)
  end.

End productCatalog.

(** ** src/server.js *)
Module server.

(** A query parameter that is present: a string, or the array or object the
    query parser builds for a repeated or bracketed key. *)
Inductive queryValue : Type :=
  | QString (s : string)
  | QOther.

Inductive response : Type :=
  | send (status : nat) (body : string)   (* [res.status(status).send(body)] *)
  | json (body : loc).                    (* [res.json(body)] *)

(** [c.customerName && c.customerName.toLowerCase() === customerName.toLowerCase()]
    as a condition. *)
Definition nameMatches (customerName : queryValue) (c : object) : result bool :=
  match c !! "customerName" with
  | Some (VStr s) =>
    if isEmpty s then Ok false
    else
      match customerName with
      | QString q => Ok (String.eqb (toLowerCase s) (toLowerCase q))
      | QOther => Throw TypeError
      end
  | Some (VNum n) => if truthy n then Throw TypeError else Ok false
  | None => Ok false
  end.

(** [customers.find(c => ...)] *)
Fixpoint findCustomer (customerName : queryValue) (customers : list object)
  : result (option object) :=
  match customers with
  | [] => Ok None
  | c :: rest =>
    matches ← nameMatches customerName c;
    if matches : bool then Ok (Some c) else findCustomer customerName rest
  end.

Section routes.
Variable numberToString : number -> string.
Variable toFixed : number -> nat -> string.
Variable stringToNumber : string -> number.
(** The module-level model handle after [loadModel()] and the result of
    [loadNormalizationData()], as for [getRecommendations]. *)
Variable model : option Model.
Variable normalizationData : option NormalizationData.

(** The handler of [GET /recommendations]; [customerName] is
    [req.query.customerName].  Whatever is thrown inside is caught and
    answered with status 500. *)
Definition recommendationsHandler (customers : list object) (products : loc)
    (customerName : option queryValue) : heap -> response * heap := fun h =>
  match customerName with
  | None => (send 400 "Customer name is required.", h)
  | Some customerName =>
    if match customerName with QString q => isEmpty q | QOther => false end
    then (send 400 "Customer name is required.", h)
    else
      match findCustomer customerName customers with
      | Throw _ => (send 500 "Internal server error.", h)
      | Ok None => (send 404 "Customer not found.", h)
      | Ok (Some customer) =>
        match getRecommendations numberToString toFixed stringToNumber
                model normalizationData customer products h with
        | (Ok rankedRecommendations, h') => (json rankedRecommendations, h')
        | (Throw _, h') => (send 500 "Internal server error.", h')
        end
      end
  end.
End routes.

End server.

(** ** src/modelTraining.js *)
Module modelTraining.

(** [tf.tensor2d(rows)] on an array of rows of numbers; an empty array has
    no second dimension and is rejected.  (The rows the program passes all
    have the length of the feature list.) *)
Definition tensor2dRows (values : list (list jsval))
  : result (list (list number)) :=
  match values with
  | [] => Throw TensorError
  | row :: _ =>
    if forallb (fun r => Nat.eqb (length r) (length row)) values
    then mapM tensor2d values
    else Throw TensorError
  end.

(** The minimum of two tensor entries; like the maximum ([numMax]) it is NaN
    as soon as one of them is. *)
Definition numMin (x y : number) : number :=
  match x, y with
  | NaN, _ | _, NaN => NaN
  | _, _ => if ltb y x then y else x
  end.

(** [t.max(0)] and [t.min(0)]: a reduction along the first axis of a tensor,
    which has at least one row. *)
Definition reduceRows (f : number -> number -> number)
    (t : list (list number)) : list number :=
  match t with
  | [] => []
  | row :: rows => foldl (zip_with f) row rows
  end.

(** An elementwise operation of a matrix with a vector, broadcast along the
    first axis. *)
Definition broadcastRows (f : number -> number -> number)
    (t : list (list number)) (v : list number) : result (list (list number)) :=
  mapM (fun row => broadcast f row v) t.

Definition featureRows (featureNames : list string) (customers : list object)
  : list (list jsval) :=
  map (fun customer =>
         map (fun feature => orZero (customer !! feature)) featureNames)
      customers.

(** The input preparation of [trainModel]: the normalization data that is
    saved, and [normalizedInputs]. *)
Definition prepareInputs (customers : list object)
  : result (NormalizationData * list (list number)) :=
  let continuousInputs := featureRows continuousFeatures customers in
  let categoricalInputs := featureRows categoricalFeatures customers in
  continuousTensor ← tensor2dRows continuousInputs;
  categoricalTensor ← tensor2dRows categoricalInputs;
  let inputMax := reduceRows numMax continuousTensor in
  let inputMin := reduceRows numMin continuousTensor in
  denom ← broadcast sub inputMax inputMin;
  let safeDenom := safeDenomOf denom in
  centered ← broadcastRows sub continuousTensor inputMin;
  normalizedContinuousInputs ← broadcastRows div centered safeDenom;
  let normalizedInputs :=
    zip_with app normalizedContinuousInputs categoricalTensor in
  mret ({| inputMax := inputMax; inputMin := inputMin |}, normalizedInputs).

(** What a number of the saved file is when it is read back and put into a
    tensor: [JSON.stringify] writes a number that is not finite as [null],
    and a tensor reads [null] as 0. *)
Definition reloaded (x : number) : number := if isFinite x then x else zero.

(** The normalization data the prediction side loads after training saved
    [normalizationData]. *)
Definition savedNormalizationData (normalizationData : NormalizationData)
  : NormalizationData :=
  {| inputMax := map reloaded (inputMax normalizationData);
     inputMin := map reloaded (inputMin normalizationData) |}.

Section labels.
Variable stringToNumber : string -> number.

(** [products.findIndex(p => p.name.toLowerCase() === target)] *)
Definition findIndex (target : string) (products : list Product) : option nat :=
  fst <$> list_find (fun p => toLowerCase (name p) = target) products.

(** [const index = products.findIndex(...); if (index >= 0) label[index] = 1] *)
Definition mark (products : list Product) (target : string)
    (label : list number) : list number :=
  match findIndex target products with
  | Some index => <[index := num_of_Z 1]> label
  | None => label
  end.

(** [v === 1] *)
Definition isOne (v : option jsval) : bool :=
  bool_decide (v = Some (VNum (num_of_Z 1))).

(** The function mapped over the customers to assign the labels. *)
Definition assignLabel (products : list Product) (customer : object)
  : list number :=
  let number k := toNumber stringToNumber (customer !! k) in
  let label := replicate (length products) zero in
  let label :=
    if leb (number "network_speed") (num_of_Z 500)
    then mark products "fiber 500" label
    else if leb (number "network_speed") (num_of_Z 1000)
    then mark products "fiber 1 gig" label
    else if leb (number "network_speed") (num_of_Z 2000)
    then mark products "fiber 2 gig" label
    else if leb (number "network_speed") (num_of_Z 5000)
    then mark products "fiber 5 gig" label
    else mark products "fiber 7 gig" label in
  let label :=
    if isOne (customer !! "coverage_size_Large")
       || ltb (number "rssi_min") (num_of_Z (-80))
    then mark products "whole-home wi-fi" label else label in
  let label :=
    if negb (isTruthy (customer !! "wifi_security"))
       && negb (isTruthy (customer !! "wifi_security_plus"))
       && negb (isTruthy (customer !! "total_shield"))
       && gtb (number "avg_bandwidth_usage") (num_of_Z 1000000)
    then mark products "wi-fi security" label else label in
  let label :=
    if isTruthy (customer !! "wifi_security_plus")
    then mark products "wi-fi security plus" label else label in
  let label :=
    if gtb (number "avg_bandwidth_usage") (num_of_Z 5000000)
    then mark products "total shield" label else label in
  let label :=
    if gtb (number "total_devices") (num_of_Z 15)
       || ltb (number "rssi_mean") (num_of_Z (-70))
    then mark products "my premium tech pro" label else label in
  let label :=
    if isOne (customer !! "state_CA") || isOne (customer !! "state_TX")
    then mark products "identity protection" label else label in
  let label :=
    if gtb (number "rx_avg_bps") (num_of_Z 10000000)
    then mark products "youtube tv" label else label in
  label.
End labels.

End modelTraining.

(** *** Readings for the catalog *)
Import productCatalog.

(** The number of characters of [s] that [p] holds of. *)
Fixpoint countChars (p : ascii -> bool) (s : string) : nat :=
  match s with
  | EmptyString => 0%nat
  | String c s' => ((if p c then 1 else 0) + countChars p s')%nat
  end.

(** What a line below the header contributes: a product, when the trimmed
    line starts with a bar and has enough columns. *)
Definition productOfLine (l : string) : option Product :=
  let line := trim l in
  if startsWith "|" line then productOfRow line else None.

Definition notHeader (l : string) : Prop := isHeaderLine (trim l) = false.

Definition newline : string := String (ascii_of_nat 10) EmptyString.

Definition sampleCatalog : string :=
  String.concat newline
    [ "# Catalog";
      "| Product Name | Features | Price |";
      "|---|---|---|";
      "| Fiber 500 | Fast. Reliable | $45.00/mo |";
      "| Fiber 1 Gig | Faster. | $65/mo |";
      "Some prose.";
      "| Total Shield | Security | Free |";
      "| Broken row | no price" ].

(** A table without its header line. *)
Definition headlessCatalog : string :=
  String.concat newline
    [ "| Fiber 500 | Fast. Reliable | $45.00/mo |";
      "| Fiber 1 Gig | Faster | $65/mo |" ].

(** A string that does not begin with white space. *)
Definition startsBlack (s : string) : Prop :=
  match s with String c _ => isWhite c = false | EmptyString => True end.

(** *** Readings for the server *)
Import server.

(** The name a row is known by: the first non-empty one of the three
    spellings of the column. *)
Definition rowName (raw : rawCustomer) : string :=
  orStr (raw !! "CustomerName")
    (orStr (raw !! "customerName") (orStr (raw !! "customer_name") "")).

(** The row's name is [q], letter case aside. *)
Definition rowMatches (q : string) (raw : rawCustomer) : bool :=
  String.eqb (toLowerCase (rowName raw)) (toLowerCase q).

(** The answer to a request once the customer is found. *)
Definition answer (r : result loc * heap) : response * heap :=
  match r with
  | (Ok rankedRecommendations, h') => (json rankedRecommendations, h')
  | (Throw _, h') => (send 500 "Internal server error.", h')
  end.

Definition sampleProducts : list Product :=
  [ {| name := "Fiber 500"; features := ["Fast"]; price := num_of_Z 50 |};
    {| name := "Identity Protection"; features := ["Safe"];
       price := num_of_Z 10 |} ].

(** *** Readings for the explanations and the training labels *)
Import modelTraining.

(** The name an explanation greets the customer by:
    [customer.customerName || 'Valued Customer']. *)
Definition greetedName (numberToString : number -> string) (customer : object)
  : string :=
  if isTruthy (customer !! "customerName")
  then toString numberToString (customer !! "customerName")
  else "Valued Customer".

(** The product names the labelling rules look for. *)
Definition fiberTiers : list string :=
  ["fiber 500"; "fiber 1 gig"; "fiber 2 gig"; "fiber 5 gig"; "fiber 7 gig"].

Definition otherTargets : list string :=
  ["whole-home wi-fi"; "wi-fi security"; "wi-fi security plus"; "total shield";
   "my premium tech pro"; "identity protection"; "youtube tv"].

Definition labelTargets : list string := fiberTiers ++ otherTargets.

Definition isBitNumber (x : number) : Prop := x = zero \/ x = num_of_Z 1.

(** *** Readings for the training inputs *)

(** The number a tensor holds for [customer[feature] || 0]; a string has
    none. *)
Definition featureValue (customer : object) (feature : string)
  : option number :=
  match orZero (customer !! feature) with
  | VNum n => Some n
  | VStr _ => None
  end.

Definition featureVector (featureNames : list string) (customer : object)
  : list number :=
  map (fun feature => default NaN (featureValue customer feature)) featureNames.

Definition finiteFeature (customer : object) (feature : string) : bool :=
  match featureValue customer feature with
  | Some (Fin _) => true
  | _ => false
  end.

Definition numericFeature (customer : object) (feature : string) : bool :=
  match featureValue customer feature with
  | Some _ => true
  | None => false
  end.

(** A customer whose continuous features are finite numbers and whose
    categorical features are numbers. *)
Definition trainable (customer : object) : bool :=
  forallb (finiteFeature customer) continuousFeatures
  && forallb (numericFeature customer) categoricalFeatures.

(** A number between 0 and 1. *)
Definition inUnit (x : number) : Prop :=
  leb zero x = true /\ leb x (num_of_Z 1) = true.

(** A row of [m] finite numbers. *)
Definition finiteRow (m : nat) (row : list number) : Prop :=
  length row = m /\ Forall (fun x => isFinite x = true) row.

Definition sampleRow2 : rawCustomer :=
  {[ "CustomerName" := "Bo"; "network_speed" := "1.0G"; "state" := "TX";
     "extenders" := "2"; "wireless_clients_count" := "14";
     "rx_avg_bps" := "12000000"; "rssi_mean" := "-60" ]}.

(** Two customers as [preprocessCustomers] returns them. *)
Definition sampleCustomers : list object :=
  [ oneHotEncoded (processCustomer sampleRow) "Small";
    oneHotEncoded (processCustomer sampleRow2) "Large" ].

Definition sampleSecurityProducts : list Product :=
  [ {| name := "Wi-Fi Security"; features := []; price := num_of_Z 5 |};
    {| name := "Wi-Fi Security Plus"; features := []; price := num_of_Z 9 |} ].

Definition sampleTiers : list Product :=
  [ {| name := "Fiber 500"; features := []; price := num_of_Z 45 |};
    {| name := "Fiber 7 Gig"; features := []; price := num_of_Z 250 |} ].

(** * Properties *)

(** ** Numbers and characters *)

Lemma num_eqb_eq x y : num_eqb x y = true -> x = y.
Proof.
  destruct x, y; simpl; try discriminate; auto.
  intros H. f_equal. apply Qc_is_canon. by apply Qeq_bool_iff.
Qed.

(** Equality of two closed numbers, by evaluation. *)
Ltac num_eq := apply num_eqb_eq; vm_compute; reflexivity.

Example parseFloat_decimal : parseFloatStr "500.0" = num_of_Z 500.
Proof. num_eq. Qed.

Example parseFloat_prefix : parseFloatStr "  -1.5e3 bps" = num_of_Z (-1500).
Proof. num_eq. Qed.

Example parseFloat_no_digit : parseFloatStr "." = NaN.
Proof. num_eq. Qed.

Example parseInt_prefix : parseIntStr " 12px" = num_of_Z 12.
Proof. num_eq. Qed.

Example parseInt_hex : parseIntStr "0x1f" = num_of_Z 31.
Proof. num_eq. Qed.

Example parseInt_absent : parseInt None = NaN.
Proof. reflexivity. Qed.

Global Instance Fin_inj : Inj (=) (=) Fin.
Proof.
  intros a b H.
  exact (f_equal (fun x => match x with Fin q => q | _ => a end) H).
Qed.

Lemma or0_num_of_Z z : or0 (num_of_Z z) = num_of_Z z.
Proof.
  unfold or0, num_of_Z, zero. simpl. case_bool_decide as H; [|done].
  simpl. rewrite <- Z2Qc_inj_0 in H. by apply Z2Qc_inj in H as ->.
Qed.

Lemma add_num_of_Z a b : add (num_of_Z a) (num_of_Z b) = num_of_Z (a + b).
Proof. unfold num_of_Z. simpl. by rewrite Z2Qc_inj_add. Qed.

Lemma ltb_num_of_Z a b : ltb (num_of_Z a) (num_of_Z b) = bool_decide (a < b).
Proof. simpl. apply bool_decide_ext. symmetry. apply Z2Qc_inj_lt. Qed.

Lemma leb_num_of_Z a b : leb (num_of_Z a) (num_of_Z b) = bool_decide (a <= b).
Proof.
  unfold leb. rewrite ltb_num_of_Z. simpl.
  destruct (decide (a < b)) as [Hlt|Hge].
  - rewrite (bool_decide_true (a < b)) by done. simpl.
    by rewrite bool_decide_true by lia.
  - rewrite (bool_decide_false (a < b)) by done. simpl.
    apply bool_decide_ext. unfold num_of_Z. split.
    + intros H. apply (inj Fin), Z2Qc_inj in H. lia.
    + intros H. by replace b with a by lia.
Qed.

Lemma eqb_num_of_Z a b : eqb (num_of_Z a) (num_of_Z b) = bool_decide (a = b).
Proof.
  simpl. apply bool_decide_ext. unfold num_of_Z. split.
  - intros H. by apply Z2Qc_inj, (inj Fin).
  - by intros ->.
Qed.

Lemma or0_not_NaN x : isNaN (or0 x) = false.
Proof. unfold or0. by destruct x; simpl; try case_bool_decide. Qed.

Lemma or0_NaN x : isNaN x = true -> or0 x = zero.
Proof. by destruct x. Qed.

Lemma letter_not_digitOrDot c : isLetter c = true -> isDigitOrDot c = false.
Proof.
  unfold isLetter, isDigitOrDot, isUpper, isLower, isDigit.
  generalize (code c). intros z. lia.
Qed.

Lemma string_app_cons c (s t : string) : String c s +:+ t = String c (s +:+ t).
Proof. reflexivity. Qed.

Lemma string_app_empty_l (t : string) : "" +:+ t = t.
Proof. reflexivity. Qed.

Lemma string_app_empty_r (s : string) : s +:+ "" = s.
Proof. induction s as [|c s IH]; [done|]. by rewrite string_app_cons, IH. Qed.

Lemma span_all p a b :
  allChars p a = true ->
  match b with String c _ => p c = false | EmptyString => True end ->
  span p (a +:+ b) = (a, b).
Proof.
  intros Ha Hb. induction a as [|c a IH].
  - rewrite string_app_empty_l. destruct b as [|c b]; [done|]. simpl. by rewrite Hb.
  - rewrite string_app_cons. simpl in *.
    apply andb_true_iff in Ha as [-> Ha]. by rewrite (IH Ha).
Qed.

(** ** The network-speed match *)

Lemma speedMatch_number_unit num unit :
  isEmpty num = false -> allChars isDigitOrDot num = true ->
  isEmpty unit = false -> allChars isLetter unit = true ->
  speedMatch (num +:+ unit) = Some (num, unit).
Proof.
  intros Hn Hnum Hu Hunit.
  assert (speedMatchAt (num +:+ unit) = Some (num, unit)) as Hat.
  { unfold speedMatchAt. rewrite span_all; [|done|].
    - rewrite Hn. replace unit with (unit +:+ "") at 1.
      + rewrite span_all; [|done..]. by rewrite Hu.
      + apply string_app_empty_r.
    - destruct unit as [|c u]; [done|]. simpl in Hunit.
      apply andb_true_iff in Hunit as [Hc _].
      by apply letter_not_digitOrDot. }
  destruct num as [|c num]; [done|].
  rewrite string_app_cons in *. simpl. by rewrite Hat.
Qed.

Lemma span_digits_no_unit s g1 rest :
  hasNumberUnit s = false -> span isDigitOrDot s = (g1, rest) ->
  isEmpty g1 = false ->
  match rest with String c _ => isLetter c = false | EmptyString => True end.
Proof.
  revert g1 rest. induction s as [|c s IH]; intros g1 rest Hno Hspan Hg1.
  - by injection Hspan as <- <-.
  - simpl in Hspan. destruct (isDigitOrDot c) eqn:Hc.
    + destruct (span isDigitOrDot s) as [a b'] eqn:Hs.
      injection Hspan as <- <-.
      destruct s as [|c2 r]; [by injection Hs as <- <-|].
      simpl in Hno. rewrite Hc in Hno. simpl in Hno.
      apply orb_false_iff in Hno as [Hc2 Hno].
      simpl in Hs. destruct (isDigitOrDot c2) eqn:Hd2.
      * destruct (span isDigitOrDot r) as [a' b''] eqn:Hr.
        injection Hs as <- <-. eapply IH; [|reflexivity|done].
        simpl. rewrite Hd2. exact Hno.
      * by injection Hs as <- <-.
    + by injection Hspan as <- <-.
Qed.

Lemma speedMatchAt_no_unit s : hasNumberUnit s = false -> speedMatchAt s = None.
Proof.
  intros Hno. unfold speedMatchAt.
  destruct (span isDigitOrDot s) as [g1 rest] eqn:Hspan.
  destruct (isEmpty g1) eqn:Hg1; [done|].
  pose proof (span_digits_no_unit s g1 rest Hno Hspan Hg1) as Hrest.
  destruct rest as [|c r]; [done|]. simpl. by rewrite Hrest.
Qed.

Lemma speedMatch_no_unit s : hasNumberUnit s = false -> speedMatch s = None.
Proof.
  induction s as [|c s IH]; intros Hno.
  - reflexivity.
  - simpl speedMatch. rewrite (speedMatchAt_no_unit _ Hno). apply IH.
    destruct s as [|c2 r]; [done|]. simpl in Hno.
    by apply orb_false_iff in Hno as [_ ?].
Qed.

Lemma upperChar_G c :
  upperChar c = "G"%char -> c = "G"%char \/ c = "g"%char.
Proof.
  destruct c as [[] [] [] [] [] [] [] []]; vm_compute; intros [=]; auto.
Qed.

Lemma toUpperCase_G unit :
  toUpperCase unit = "G" <-> unit = "G" \/ unit = "g".
Proof.
  split.
  - destruct unit as [|c [|c' u]]; simpl; try discriminate.
    intros [= H]. apply upperChar_G in H as [-> | ->]; auto.
  - by intros [-> | ->].
Qed.

Lemma or0_parseInt field : or0 (parseInt field) = num_of_Z (intField field).
Proof.
  unfold parseInt, parseIntStr, intField.
  destruct (parseIntZ (fieldToString field)); simpl; [|done].
  apply or0_num_of_Z.
Qed.

(** ** Extraction *)

Lemma processCustomer_coverage_size raw :
  processCustomer raw !! "coverage_size" =
  Some (VStr (coverageSize
    (or0 (parseInt (raw !! "extenders")))
    (add (or0 (parseInt (raw !! "wireless_clients_count")))
         (or0 (parseInt (raw !! "wired_clients_count")))))).
Proof. reflexivity. Qed.







(** The numeric group of the match may hold no digit; the value is then NaN. *)
Lemma network_speed_NaN : networkSpeed (Some ".M") = NaN.
Proof. num_eq. Qed.

Lemma extract_ok raw :
  extract raw =
  Ok (oneHotEncoded (processCustomer raw)
        (coverageSize (num_of_Z (intField (raw !! "extenders")))
           (num_of_Z (intField (raw !! "wireless_clients_count")
                      + intField (raw !! "wired_clients_count"))))).
Proof.
  unfold extract, preprocessCustomer.
  by rewrite processCustomer_coverage_size, !or0_parseInt, add_num_of_Z.
Qed.

Lemma stateBit_isBit field state : isBit (stateBit field state).
Proof.
  unfold stateBit, isBit. destruct field as [s|]; [|by left].
  destruct (_ && _); auto.
Qed.

Lemma extract_state raw cs state :
  state ∈ states ->
  oneHotEncoded (processCustomer raw) cs !! stateKey state =
    Some (stateBit (raw !! "state") state).
Proof.
  intros Hin.
  assert (forall v, isBit v ->
    match Some v with
    | Some (VNum n) => if eqb n (num_of_Z 1) then VNum (num_of_Z 1) else VNum zero
    | _ => VNum zero
    end = v) as Hbit.
  { by intros v [-> | ->]. }
  unfold states in Hin.
  repeat (apply elem_of_cons in Hin as [-> | Hin]);
    try (rewrite <- (Hbit _ (stateBit_isBit (raw !! "state") _)) at 1; reflexivity).
  by apply elem_of_nil in Hin.
Qed.

Lemma extract_coverage raw cs size :
  size ∈ coverageSizes ->
  oneHotEncoded (processCustomer raw) cs !! ("coverage_size_" +:+ size) =
    Some (if String.eqb (toLowerCase cs) (toLowerCase size)
          then VNum (num_of_Z 1) else VNum zero).
Proof.
  intros Hin. unfold coverageSizes in Hin.
  repeat (apply elem_of_cons in Hin as [-> | Hin]); try reflexivity.
  by apply elem_of_nil in Hin.
Qed.

Lemma isBit_not_NaN v : isBit v -> exists n, v = VNum n /\ isNaN n = false.
Proof. intros [-> | ->]; eauto. Qed.

Lemma extract_categorical raw cs k :
  k ∈ categoricalFeatures ->
  exists v, oneHotEncoded (processCustomer raw) cs !! k = Some v /\ isBit v.
Proof.
  intros Hin. unfold categoricalFeatures in Hin.
  repeat (apply elem_of_cons in Hin as [-> | Hin]).
  1-3: match goal with |- context [ _ !! ?k ] =>
         change k with ("coverage_size_" +:+ String.substring 14 6 k)
       end; rewrite extract_coverage by (vm_compute; set_solver);
       eexists; split; [done|]; unfold isBit; destruct (String.eqb _ _); auto.
  1-10: match goal with |- context [ _ !! ?k ] =>
          change k with (stateKey (String.substring 6 2 k))
        end; rewrite extract_state by (vm_compute; set_solver);
        eexists; split; [done|]; apply stateBit_isBit.
  by apply elem_of_nil in Hin.
Qed.

Lemma extract_float raw cs k :
  k ∈ floatFields ->
  oneHotEncoded (processCustomer raw) cs !! k
  = Some (VNum (or0 (parseFloat (raw !! k)))).
Proof.
  intros Hk. unfold floatFields in Hk.
  repeat (apply elem_of_cons in Hk as [-> | Hk]); try reflexivity.
  by apply elem_of_nil in Hk.
Qed.

Lemma extract_schema_number raw cs k :
  k ∈ continuousFeatures ++ categoricalFeatures ->
  exists n, oneHotEncoded (processCustomer raw) cs !! k = Some (VNum n)
            /\ (k <> "network_speed" -> k <> "total_devices" ->
                isNaN n = false).
Proof.
  intros [Hk | Hk]%elem_of_app.
  - unfold continuousFeatures in Hk.
    apply elem_of_cons in Hk as [-> | Hk].
    { eexists. split; [reflexivity|]. done. }
    apply elem_of_cons in Hk as [-> | Hk].
    { eexists. split; [reflexivity|]. intros _ _. apply or0_not_NaN. }
    apply elem_of_cons in Hk as [-> | Hk].
    { eexists. split; [reflexivity|]. done. }
    eexists. split; [by apply extract_float|]. intros _ _. apply or0_not_NaN.
  - destruct (extract_categorical raw cs k Hk) as (v & Hv & Hbit).
    destruct (isBit_not_NaN v Hbit) as (n & -> & Hn). eauto.
Qed.



(** ** The request pipeline without normalization data *)

(** C1, as amended: when the normalization-parameters artifact is missing,
    [getRecommendations] (after logging) returns a new empty sequence to its
    caller and changes nothing else, for every customer record produced by
    [loadCustomerData], every catalog and whatever the state of the model.
    (For an arbitrary object in place of the customer, the only other outcome
    is the TypeError of the one-hot step on a [coverage_size] that is not a
    string.) *)
Theorem missing_normalization_returns_empty
    (numberToString : number -> string) (toFixed : number -> nat -> string)
    (stringToNumber : string -> number)
    (model : option Model) (products : loc) (h : heap) :
  (forall raw : rawCustomer,
     getRecommendations numberToString toFixed stringToNumber
       model None (processCustomer raw) products h
     = (Ok (length h), h ++ [CArray []]))
  /\ (forall customer : object,
        getRecommendations numberToString toFixed stringToNumber
          model None customer products h
        = match customer !! "coverage_size" with
          | Some (VStr _) => (Ok (length h), h ++ [CArray []])
          | _ => (Throw TypeError, h)
          end).
Proof.
  split.
  - intros raw. unfold getRecommendations. fold (extract raw).
    by rewrite extract_ok.
  - intros customer. unfold getRecommendations, preprocessCustomer.
    by destruct (customer !! "coverage_size") as [[n|cs]|].
Qed.

(** C1 as stated fails: with a non-empty catalog and no normalization data
    the result is the empty sequence, not an exception. *)
Lemma missing_normalization_not_an_error :
  let catalog := [ CFeatures ["Fast"];
                   CProduct "Fiber 500" 0%nat (num_of_Z 50);
                   CArray [1%nat] ] in
  let r := getRecommendations (fun _ => "") (fun _ _ => "") (fun _ => NaN)
             (Some (fun _ => Ok [num_of_Z 1])) None (processCustomer ∅)
             2%nat catalog in
  r = (Ok 3%nat, catalog ++ [CArray []]) /\ forall e, r.1 <> Throw e.
Proof. split; [reflexivity | discriminate]. Qed.

(** ** Normalization *)

Lemma safeDenomOf_spec denom : safeDenomOf denom = map safeDenom1 denom.
Proof.
  unfold safeDenomOf. induction denom as [|d l IH]; [done|].
  simpl. rewrite IH. f_equal. unfold safeDenom1.
  destruct d as [| | |q]; try done.
  simpl. case_bool_decide as Hq; simpl.
  - apply (inj Fin) in Hq. subst q. reflexivity.
  - f_equal. rewrite Z2Qc_inj_0. ring.
Qed.

Lemma normalizeContinuous_same_length input nd :
  length input = length (inputMin nd) ->
  length (inputMax nd) = length (inputMin nd) ->
  normalizeContinuous input nd =
    Ok (zip_with div (zip_with sub input (inputMin nd))
          (map safeDenom1 (zip_with sub (inputMax nd) (inputMin nd)))).
Proof.
  intros Hin Hmax. unfold normalizeContinuous, broadcast.
  rewrite decide_True by done. simpl.
  rewrite decide_True by done. simpl.
  rewrite safeDenomOf_spec.
  rewrite decide_True; [done|].
  rewrite length_map, !length_zip_with. lia.
Qed.






(** ** Explanations *)

(** C8: for every customer record, a product named "Wi-Fi Security Plus"
    receives the "security plus" template text and not the plain
    "wi-fi security" template text. *)
Theorem security_plus_template
    (numberToString : number -> string) (toFixed : number -> nat -> string)
    (stringToNumber : string -> number)
    (customer : object) (r : nat) (s : option number) (fs : list string)
    (p : number) :
  let product := {| rank := r; productName := "Wi-Fi Security Plus";
                    score := s; rfeatures := fs; rprice := p |} in
  let name := if isTruthy (customer !! "customerName")
              then toString numberToString (customer !! "customerName")
              else "Valued Customer" in
  let greeting := "Hi " +:+ name
    +:+ ", based on your current setup, we recommend Wi-Fi Security Plus." in
  generateAIExplanation numberToString toFixed stringToNumber customer product
    = greeting +:+ " Enhancing your security with Wi-Fi Security Plus ensures comprehensive protection for all your devices, safeguarding against potential threats and vulnerabilities."
  /\ generateAIExplanation numberToString toFixed stringToNumber customer product
    <> greeting +:+ " To protect your network from malicious sites and potential cyber threats, Wi-Fi Security Plus offers advanced security features tailored to your needs.".
Proof.
  intros product name greeting.
  assert (generateAIExplanation numberToString toFixed stringToNumber customer product
    = greeting +:+ " Enhancing your security with Wi-Fi Security Plus ensures comprehensive protection for all your devices, safeguarding against potential threats and vulnerabilities.") as Heq.
  { unfold generateAIExplanation. fold name. simpl productName.
    replace (includes "fiber" (toLowerCase "Wi-Fi Security Plus")) with false
      by (vm_compute; reflexivity).
    replace (includes "whole-home wi-fi" (toLowerCase "Wi-Fi Security Plus"))
      with false by (vm_compute; reflexivity).
    replace (includes "wi-fi security plus" (toLowerCase "Wi-Fi Security Plus"))
      with true by (vm_compute; reflexivity).
    reflexivity. }
  split; [done|].
  rewrite Heq. intros H. apply (inj (String.app greeting)) in H. discriminate.
Qed.

(** The order of the tests matters: the name also contains the plainer
    keyword, whose test comes later. *)
Lemma security_plus_matches_both :
  includes "wi-fi security plus" (toLowerCase "Wi-Fi Security Plus") = true
  /\ includes "wi-fi security" (toLowerCase "Wi-Fi Security Plus") = true.
Proof. by vm_compute. Qed.

(** ** Sorting *)
Section sort_properties.
Context {A : Type} (comparefn : A -> A -> number).

Lemma insertSorted_perm x l : insertSorted comparefn x l ≡ₚ x :: l.
Proof.
  induction l as [|y l IH]; simpl; [done|].
  destruct (after comparefn x y); [|done].
  rewrite IH. apply Permutation_swap.
Qed.

Lemma sort_perm l : sort comparefn l ≡ₚ l.
Proof.
  induction l as [|x l IH]; simpl; [done|].
  by rewrite insertSorted_perm, IH.
Qed.

Lemma sort_length l : length (sort comparefn l) = length l.
Proof. by rewrite sort_perm. Qed.

(** Sorting commutes with a map that the comparison does not see. *)
Lemma sort_fmap {B} (f : A -> B) (comparefn' : B -> B -> number) l :
  (forall a b, comparefn' (f a) (f b) = comparefn a b) ->
  f <$> sort comparefn l = sort comparefn' (f <$> l).
Proof.
  intros Hf. induction l as [|x l IH]; csimpl; [done|].
  rewrite <- IH. generalize (sort comparefn l). clear IH.
  intros s. induction s as [|y s IH]; csimpl; [done|].
  unfold after. rewrite Hf. destruct (gtb _ _); csimpl; [|done].
  by rewrite IH.
Qed.

(** Stability: elements that the comparison never orders strictly keep
    their relative order.  [P] selects a class of such elements. *)
Lemma insertSorted_filter (P : A -> Prop) `{!forall a, Decision (P a)} x l :
  (forall a b, P a -> P b -> after comparefn a b = false) ->
  filter P (insertSorted comparefn x l) = filter P (x :: l).
Proof.
  intros HP. induction l as [|y l IH]; simpl; [done|].
  destruct (after comparefn x y) eqn:Hxy; [|done].
  rewrite filter_cons, IH, !filter_cons.
  destruct (decide (P y)), (decide (P x)); try done.
  by rewrite HP in Hxy.
Qed.

Lemma sort_filter (P : A -> Prop) `{!forall a, Decision (P a)} l :
  (forall a b, P a -> P b -> after comparefn a b = false) ->
  filter P (sort comparefn l) = filter P l.
Proof.
  intros HP. induction l as [|x l IH]; simpl; [done|].
  rewrite insertSorted_filter by done.
  by rewrite !filter_cons, IH.
Qed.

(** Order: with a comparison that agrees with a total preorder [R] on the
    elements, the result is sorted for [R]. *)
Lemma sort_sorted (R : A -> A -> Prop) (Q : A -> Prop) l :
  (forall a b c, R a b -> R b c -> R a c) ->
  (forall a b, Q a -> Q b -> after comparefn a b = false -> R a b) ->
  (forall a b, Q a -> Q b -> after comparefn a b = true -> R b a) ->
  Forall Q l ->
  StronglySorted R (sort comparefn l).
Proof.
  intros Htrans Hle Hgt HQ.
  induction HQ as [|x l Hx HQ IH]; simpl; [constructor|].
  assert (Forall Q (sort comparefn l)) as HQs by by rewrite sort_perm.
  revert IH HQs. generalize (sort comparefn l). clear HQ.
  intros s Hs HQs. induction Hs as [|y s Hs IH Hall]; simpl.
  - repeat constructor.
  - apply Forall_cons in HQs as [Hy HQs].
    destruct (after comparefn x y) eqn:Hxy.
    + constructor; [by apply IH|].
      rewrite insertSorted_perm. constructor; [by apply Hgt|done].
    + constructor; [by constructor|].
      constructor; [by apply Hle|].
      eapply Forall_impl; [exact Hall|]. intros z Hz.
      eapply Htrans; [|exact Hz]. by apply Hle.
Qed.
End sort_properties.

(** A sorted list is determined by its classes of equal keys: two lists
    sorted for the same order on keys, with the same elements in the same
    order under every key, are equal. *)
Lemma sorted_stable_unique {A K} `{EqDecision K} (key : A -> K)
    (R : K -> K -> Prop) (l1 l2 : list A) :
  (forall a b, a ∈ l1 -> b ∈ l1 ->
               R (key a) (key b) -> R (key b) (key a) -> key a = key b) ->
  StronglySorted (fun a b => R (key a) (key b)) l1 ->
  StronglySorted (fun a b => R (key a) (key b)) l2 ->
  (forall k, filter (fun a => key a = k) l1 = filter (fun a => key a = k) l2) ->
  l1 = l2.
Proof.
  revert l2. induction l1 as [|a t1 IH]; intros l2 Hanti Hs1 Hs2 Hf.
  - destruct l2 as [|b t2]; [done|].
    specialize (Hf (key b)). rewrite filter_nil, filter_cons_True in Hf by done.
    done.
  - destruct l2 as [|b t2].
    { specialize (Hf (key a)).
      rewrite filter_nil, filter_cons_True in Hf by done. done. }
    apply StronglySorted_inv in Hs1 as [Hs1 Ha].
    apply StronglySorted_inv in Hs2 as [Hs2 Hb].
    assert (key a = key b) as Hk.
    { assert (b ∈ a :: t1) as Hb1.
      { pose proof (Hf (key b)) as H.
        rewrite (filter_cons_True _ b) in H by done.
        assert (b ∈ filter (fun x => key x = key b) (a :: t1)) as Hin
          by (rewrite H; left).
        by apply list_elem_of_filter in Hin as [_ ?]. }
      assert (a ∈ b :: t2) as Ha2.
      { pose proof (Hf (key a)) as H.
        rewrite (filter_cons_True _ a) in H by done.
        assert (a ∈ filter (fun x => key x = key a) (b :: t2)) as Hin
          by (rewrite <- H; left).
        by apply list_elem_of_filter in Hin as [_ ?]. }
      apply elem_of_cons in Hb1 as [-> | Hb1]; [done|].
      apply elem_of_cons in Ha2 as [-> | Ha2]; [done|].
      apply Hanti; [left | by right | |].
      - by eapply Forall_forall in Ha.
      - by eapply Forall_forall in Hb. }
    pose proof (Hf (key a)) as Hhead.
    rewrite filter_cons_True, (filter_cons_True _ b) in Hhead by done.
    injection Hhead as <- Htail. f_equal.
    apply IH; [|done..|].
    + intros x y Hx Hy. apply Hanti; by right.
    + intros k. destruct (decide (key a = k)) as [<- | Hne]; [done|].
      specialize (Hf k). by rewrite !filter_cons_False in Hf by done.
Qed.

Lemma StronglySorted_lookup {A} (R : A -> A -> Prop) (l : list A) :
  StronglySorted R l ->
  forall i j a b, (i < j)%nat -> l !! i = Some a -> l !! j = Some b -> R a b.
Proof.
  induction 1 as [|x l Hs IH Hall]; intros i j a b Hij Ha Hb; [done|].
  destruct j as [|j]; [lia|]. simpl in Hb.
  destruct i as [|i]; simpl in Ha.
  - simplify_eq. eapply Forall_forall; [exact Hall|].
    by eapply list_elem_of_lookup_2.
  - eapply (IH i j); [lia|done..].
Qed.

(** ** Ranking *)

Lemma gtb_sub_zero x y :
  isNaN x = false -> isNaN y = false -> gtb (sub y x) zero = ltb x y.
Proof.
  destruct x as [| | |a], y as [| | |b]; try done.
  intros _ _. unfold gtb. simpl. apply bool_decide_ext.
  rewrite Z2Qc_inj_0. symmetry. apply Qclt_minus_iff.
Qed.

Lemma gtb_sub_self x : gtb (sub x x) zero = false.
Proof.
  destruct x as [| | |a]; try done.
  unfold gtb. simpl. rewrite Qcplus_opp_r, Z2Qc_inj_0.
  apply bool_decide_eq_false. intros H. by apply Qclt_not_eq in H.
Qed.

Lemma leb_Fin a b : leb (Fin a) (Fin b) = true <-> (a <= b)%Qc.
Proof.
  unfold leb. simpl. rewrite orb_true_iff, !bool_decide_eq_true. split.
  - intros [H | H]; [by apply Qclt_le_weak|].
    apply (inj Fin) in H. subst b. apply Qcle_refl.
  - intros H. apply Qcle_lt_or_eq in H as [H | H]; [by left|].
    right. by rewrite H.
Qed.

Lemma leb_trans x y z : leb x y = true -> leb y z = true -> leb x z = true.
Proof.
  destruct x as [| | |a], y as [| | |b], z as [| | |c]; try done.
  rewrite !leb_Fin. apply Qcle_trans.
Qed.

Lemma ltb_false_leb x y :
  isNaN x = false -> isNaN y = false -> ltb x y = false -> leb y x = true.
Proof.
  destruct x as [| | |a], y as [| | |b]; try done.
  intros _ _. simpl. intros H%bool_decide_eq_false.
  apply leb_Fin. by apply Qcnot_lt_le.
Qed.

Lemma ltb_leb x y : ltb x y = true -> leb x y = true.
Proof. unfold leb. by intros ->. Qed.

Lemma after_byScore_equal a b :
  scoreOf a = scoreOf b -> after byScore a b = false.
Proof. unfold after, byScore. intros ->. apply gtb_sub_self. Qed.

Lemma rankedProducts_scored products predictionArray :
  rankedScored <$> rankedProducts products predictionArray
  = sort byScore (catalogScored products predictionArray).
Proof.
  unfold rankedProducts, catalogScored.
  rewrite fmap_imap.
  rewrite (imap_ext _ (const rankedScored)) by done.
  rewrite imap_const.
  rewrite (sort_fmap byScoreDesc rankedScored byScore) by done.
  by rewrite fmap_imap.
Qed.

Lemma rankedProducts_rank products predictionArray :
  rank <$> rankedProducts products predictionArray
  = seq 1 (length products).
Proof.
  unfold rankedProducts. apply list_eq. intros i.
  rewrite list_lookup_fmap, list_lookup_imap.
  destruct (sort byScoreDesc _ !! i) as [r|] eqn:Hi; simpl.
  - apply lookup_lt_Some in Hi. rewrite sort_length, length_imap in Hi.
    rewrite lookup_seq_lt by done. f_equal. lia.
  - apply lookup_ge_None in Hi. rewrite sort_length, length_imap in Hi.
    by rewrite lookup_seq_ge.
Qed.

Section recommendations.
Variable numberToString : number -> string.
Variable toFixed : number -> nat -> string.
Variable stringToNumber : string -> number.

Abbreviation recommendations :=
  (rankedProductsWithExplanations numberToString toFixed stringToNumber).

Lemma recommendations_scored customer products predictionArray :
  recScored <$> recommendations customer products predictionArray
  = sort byScore (catalogScored products predictionArray).
Proof.
  unfold rankedProductsWithExplanations.
  rewrite <- list_fmap_compose, <- rankedProducts_scored.
  by apply list_fmap_ext.
Qed.

Lemma recommendations_rank customer products predictionArray :
  rank' <$> recommendations customer products predictionArray
  = seq 1 (length products).
Proof.
  unfold rankedProductsWithExplanations.
  rewrite <- list_fmap_compose.
  rewrite <- (rankedProducts_rank products predictionArray).
  by apply list_fmap_ext.
Qed.
End recommendations.

Lemma StronglySorted_filter_tail {A} (R : A -> A -> Prop) (P : A -> Prop)
    `{!forall a, Decision (P a)} (x : A) (l : list A) :
  StronglySorted R (if decide (P x) then x :: filter P l else filter P l) ->
  StronglySorted R (filter P l).
Proof.
  destruct (decide (P x)); [|done]. by intros [? _]%StronglySorted_inv.
Qed.

Lemma StronglySorted_of_fmap {A B} (f : A -> B) (R : B -> B -> Prop) (l : list A) :
  StronglySorted R (f <$> l) -> StronglySorted (fun a b => R (f a) (f b)) l.
Proof.
  induction l as [|x l IH]; csimpl; [constructor|].
  intros [Hs Hall]%StronglySorted_inv. constructor; [by apply IH|].
  rewrite Forall_fmap in Hall. exact Hall.
Qed.

Lemma filter_sorted_lookup {A} (R : A -> A -> Prop) (P : A -> Prop)
    `{!forall a, Decision (P a)} (l : list A) :
  StronglySorted R (filter P l) ->
  forall p q a b, (p < q)%nat -> l !! p = Some a -> l !! q = Some b ->
                  P a -> P b -> R a b.
Proof.
  induction l as [|x l IH]; intros Hs p q a b Hpq Ha Hb HPa HPb; [done|].
  destruct q as [|q]; [lia|]. simpl in Hb.
  rewrite filter_cons in Hs. destruct p as [|p]; simpl in Ha.
  - simplify_eq. rewrite decide_True in Hs by done.
    apply StronglySorted_inv in Hs as [_ Hall].
    eapply Forall_forall; [exact Hall|].
    apply list_elem_of_filter. split; [done|]. by eapply list_elem_of_lookup_2.
  - apply (IH (StronglySorted_filter_tail _ _ _ _ Hs) p q); [lia|done..].
Qed.

Lemma catalogIndexed_fst products predictionArray :
  fst <$> catalogIndexed products predictionArray = seq 0 (length products).
Proof.
  unfold catalogIndexed. rewrite fmap_imap.
  rewrite (imap_ext _ (fun j _ => id (0 + j)%nat)) by done.
  by rewrite imap_seq, list_fmap_id.
Qed.

Lemma catalogIndexed_snd products predictionArray :
  snd <$> catalogIndexed products predictionArray
  = catalogScored products predictionArray.
Proof. unfold catalogIndexed, catalogScored. by rewrite fmap_imap. Qed.

Lemma catalogIndexed_lookup products predictionArray :
  Forall (fun t => catalogScored products predictionArray !! t.1 = Some t.2
                   /\ scoreOf t.2 = predictionArray !! t.1)
         (catalogIndexed products predictionArray).
Proof.
  apply Forall_lookup. intros i [j e] Hi. unfold catalogIndexed in Hi.
  rewrite list_lookup_imap in Hi.
  destruct (products !! i) as [p|] eqn:Hp; simplify_eq/=.
  unfold catalogScored. by rewrite list_lookup_imap, Hp.
Qed.

Lemma seq_sorted start len : StronglySorted lt (seq start len).
Proof.
  revert start. induction len as [|len IH]; intros start; simpl; constructor.
  - apply IH.
  - apply Forall_forall. intros x Hx%elem_of_seq. lia.
Qed.

Lemma StronglySorted_filter {A} (R : A -> A -> Prop) (P : A -> Prop)
    `{!forall a, Decision (P a)} (l : list A) :
  StronglySorted R l -> StronglySorted R (filter P l).
Proof.
  induction 1 as [|x l Hs IH Hall]; [constructor|].
  rewrite filter_cons. destruct (decide (P x)); [|done].
  constructor; [done|].
  apply Forall_forall. intros y [_ Hy]%list_elem_of_filter.
  by eapply Forall_forall.
Qed.

(** ** The store: what a request leaves untouched *)

Lemma triple_bind {A B} (P : heap -> Prop) (m : ST A) (k : A -> ST B)
    (Q : A -> heap -> Prop) (R : B -> heap -> Prop) (E : heap -> Prop) :
  triple P m Q E -> (forall a, triple (Q a) (k a) R E) ->
  triple P (m ≫= k) R E.
Proof.
  intros Hm Hk h HP. unfold mbind, ST_bind.
  specialize (Hm h HP). destruct (m h) as [[a|e] h']; [|done].
  by apply Hk.
Qed.

Section frame.
Variable h0 : heap.

Abbreviation keeps := (keeps h0).

Lemma keeps_bind {A B} (m : ST A) (k : A -> ST B) φ ψ :
  keeps m φ -> (forall a, φ a -> keeps (k a) ψ) -> keeps (m ≫= k) ψ.
Proof.
  intros Hm Hk. eapply triple_bind; [exact Hm|].
  intros a h [Hh Ha]. by apply Hk.
Qed.

Lemma keeps_ret {A} (a : A) (φ : A -> Prop) : φ a -> keeps (mret a) φ.
Proof. by intros Ha h Hh. Qed.

Lemma keeps_throw {A} e (φ : A -> Prop) : keeps (throw e) φ.
Proof. by intros h Hh. Qed.

Lemma keeps_lift {A} (r : result A) : keeps (lift r) (fun _ => True).
Proof. intros h Hh. unfold lift. by destruct r. Qed.

Lemma keeps_read l : keeps (read l) (fun _ => True).
Proof. intros h Hh. unfold read. by destruct (h !! l). Qed.

Lemma keeps_readArray l : keeps (readArray l) (fun _ => True).
Proof.
  eapply keeps_bind; [apply keeps_read|]. intros [] _;
    (by apply keeps_throw) || by apply keeps_ret.
Qed.

Lemma keeps_readArray_new l :
  isNew h0 l -> keeps (readArray l) (Forall (isNew h0)).
Proof.
  intros Hl h Hh. unfold readArray, mbind, ST_bind, read.
  destruct (h !! l) as [c|] eqn:Hc; [|done].
  destruct c; try done. split; [done|].
  destruct Hh as [_ Hh]. by eapply Hh.
Qed.

Lemma untouched_alloc h c :
  untouched h0 h ->
  match c with CArray els => Forall (isNew h0) els | _ => True end ->
  untouched h0 (h ++ [c]) /\ isNew h0 (length h).
Proof.
  intros [Hpre Harr] Hc. split; [split|].
  - by apply prefix_app_r.
  - intros l els Hl Hlook.
    destruct (decide (l < length h)%nat) as [Hlt|Hge].
    + rewrite lookup_app_l in Hlook by done. by eapply Harr.
    + rewrite lookup_app_r in Hlook by lia.
      destruct (l - length h)%nat; [|done]. by simplify_eq/=.
  - by apply prefix_length.
Qed.

Lemma keeps_alloc c :
  match c with CArray els => Forall (isNew h0) els | _ => True end ->
  keeps (alloc c) (isNew h0).
Proof. intros Hc h Hh. by apply untouched_alloc. Qed.

Lemma untouched_write h l c :
  untouched h0 h -> isNew h0 l ->
  match c with CArray els => Forall (isNew h0) els | _ => True end ->
  untouched h0 (<[l := c]> h).
Proof.
  intros [[k ->] Harr] Hl Hc. split.
  - rewrite insert_app_r_alt by done. by eexists.
  - intros l' els Hl' Hlook.
    destruct (decide (l = l')) as [<-|Hne].
    + destruct (decide (l < length (h0 ++ k))%nat) as [Hlt|Hge].
      * rewrite list_lookup_insert_eq in Hlook by done. by simplify_eq.
      * rewrite list_insert_ge in Hlook by lia. by eapply Harr.
    + rewrite list_lookup_insert_ne in Hlook by done. by eapply Harr.
Qed.

Lemma keeps_write l c :
  isNew h0 l -> isObject c -> keeps (write l c) (fun _ => True).
Proof.
  intros Hl Hc h Hh. split; [|done].
  apply untouched_write; [done..|]. by destruct c.
Qed.
End frame.

Section frame_pipeline.
Variable numberToString : number -> string.
Variable toFixed : number -> nat -> string.
Variable stringToNumber : string -> number.
Variable h0 : heap.

Lemma keeps_mapProducts predictionArray index products :
  keeps h0 (mapProducts predictionArray index products) (Forall (isNew h0)).
Proof.
  revert index. induction products as [|p ps IH]; intros index; simpl.
  - by apply keeps_ret.
  - eapply keeps_bind; [apply keeps_read|]. intros c _.
    destruct c; try apply keeps_throw.
    eapply keeps_bind; [by apply keeps_alloc|]. intros r Hr.
    eapply keeps_bind; [apply IH|]. intros rs Hrs.
    apply keeps_ret. by constructor.
Qed.

Lemma keeps_sortByScore l :
  isNew h0 l -> keeps h0 (sortByScore l) (fun _ => True).
Proof.
  intros Hl h Hh. unfold sortByScore.
  destruct (h !! l) as [c|] eqn:Hc; [|done].
  destruct c; try done. split; [|done].
  apply untouched_write; [done..|].
  rewrite sort_perm. destruct Hh as [_ Hh]. by eapply Hh.
Qed.

Lemma keeps_forEachRank index elements :
  Forall (isNew h0) elements ->
  keeps h0 (forEachRank index elements) (fun _ => True).
Proof.
  intros Hnew. revert index.
  induction Hnew as [|p ps Hp _ IH]; intros index; simpl.
  - by apply keeps_ret.
  - eapply keeps_bind; [apply keeps_read|]. intros c _.
    destruct c; try apply keeps_throw.
    eapply keeps_bind; [by apply keeps_write|]. intros _ _. apply IH.
Qed.

Lemma keeps_mapExplanations customer elements :
  keeps h0 (mapExplanations numberToString toFixed stringToNumber
              customer elements) (Forall (isNew h0)).
Proof.
  induction elements as [|p ps IH]; simpl.
  - by apply keeps_ret.
  - eapply keeps_bind; [apply keeps_read|]. intros c _.
    destruct c; try apply keeps_throw.
    eapply keeps_bind; [apply keeps_read|]. intros fs _.
    destruct fs; try apply keeps_throw.
    eapply keeps_bind; [by apply keeps_alloc|]. intros r Hr.
    eapply keeps_bind; [apply IH|]. intros rs Hrs.
    apply keeps_ret. by constructor.
Qed.

Lemma keeps_logEach elements : keeps h0 (logEach elements) (fun _ => True).
Proof.
  induction elements as [|p ps IH]; simpl.
  - by apply keeps_ret.
  - eapply keeps_bind; [apply keeps_read|]. intros c _.
    destruct c as [| | |? ? [s|] ? ?|]; try apply keeps_throw. apply IH.
Qed.

Lemma keeps_rankProducts predictionArray products :
  keeps h0 (rankProducts predictionArray products) (isNew h0).
Proof.
  unfold rankProducts.
  eapply keeps_bind; [apply keeps_readArray|]. intros catalog _.
  eapply keeps_bind; [apply keeps_mapProducts|]. intros created Hcreated.
  eapply keeps_bind; [by apply keeps_alloc|]. intros rankedProducts Hranked.
  eapply keeps_bind; [by apply keeps_sortByScore|]. intros _ _.
  eapply keeps_bind; [by apply keeps_readArray_new|]. intros sorted Hsorted.
  eapply keeps_bind; [by apply keeps_forEachRank|]. intros _ _.
  by apply keeps_ret.
Qed.

Lemma keeps_explainRanked customer rankedProducts :
  keeps h0 (explainRanked numberToString toFixed stringToNumber
              customer rankedProducts) (isNew h0).
Proof.
  unfold explainRanked.
  eapply keeps_bind; [apply keeps_readArray|]. intros sorted _.
  eapply keeps_bind; [apply keeps_mapExplanations|]. intros explained Hexp.
  eapply keeps_bind; [by apply keeps_alloc|]. intros result Hresult.
  eapply keeps_bind; [apply keeps_logEach|]. intros _ _.
  by apply keeps_ret.
Qed.

Lemma keeps_rankAndExplain customer predictionArray products :
  keeps h0 (rankAndExplain numberToString toFixed stringToNumber
              customer predictionArray products) (isNew h0).
Proof.
  unfold rankAndExplain.
  eapply keeps_bind; [apply keeps_rankProducts|]. intros rankedProducts _.
  apply keeps_explainRanked.
Qed.

Lemma keeps_getRecommendations model normalizationData customer products :
  keeps h0 (getRecommendations numberToString toFixed stringToNumber
              model normalizationData customer products) (isNew h0).
Proof.
  unfold getRecommendations.
  eapply keeps_bind; [apply keeps_lift|]. intros pc _.
  destruct normalizationData as [nd|]; [|by apply keeps_alloc].
  eapply keeps_bind; [apply keeps_lift|]. intros inputTensor _.
  eapply keeps_bind; [apply keeps_lift|]. intros normalized _.
  eapply keeps_bind; [apply keeps_lift|]. intros categorical _.
  eapply (keeps_bind _ _ _ (fun _ => True)).
  { destruct model; [by apply keeps_ret|apply keeps_throw]. }
  intros predict _.
  eapply keeps_bind; [apply keeps_lift|]. intros predictionArray _.
  apply keeps_rankAndExplain.
Qed.
End frame_pipeline.

Lemma untouched_refl h : untouched h h.
Proof.
  split; [done|]. intros l els Hl Hlook.
  apply lookup_lt_Some in Hlook. unfold isNew in Hl. lia.
Qed.

Lemma catalogAt_preserved h h' products ps :
  (forall l c, h !! l = Some c -> h' !! l = Some c) ->
  catalogAt h products ps -> catalogAt h' products ps.
Proof.
  intros Hkeep (ls & Hcat & Hps). exists ls. split; [by apply Hkeep|].
  eapply Forall2_impl; [exact Hps|].
  intros l p (f & Hl & Hf). exists f. split; by apply Hkeep.
Qed.

(** C10: [getRecommendations] does not mutate the shared catalog.  Whatever
    the customer, the model, the normalization data and the store, and
    whether the call returns or throws, every object that existed before
    the call (the catalog array, each product and its feature list among
    them) is afterwards exactly as it was, so a store that held the catalog
    [ps] still holds it; the returned array and every entry in it are objects
    created by the call. *)
Theorem getRecommendations_leaves_catalog
    (numberToString : number -> string) (toFixed : number -> nat -> string)
    (stringToNumber : string -> number)
    (model : option Model) (normalizationData : option NormalizationData)
    (customer : object) (products : loc) (h : heap) :
  let '(r, h') := getRecommendations numberToString toFixed stringToNumber
                    model normalizationData customer products h in
  (forall l c, h !! l = Some c -> h' !! l = Some c)
  /\ (forall ps, catalogAt h products ps -> catalogAt h' products ps)
  /\ (forall out, r = Ok out ->
        isNew h out
        /\ forall entries, h' !! out = Some (CArray entries) ->
                           Forall (isNew h) entries).
Proof.
  pose proof (keeps_getRecommendations numberToString toFixed stringToNumber
                h model normalizationData customer products h
                (untouched_refl h)) as H.
  destruct (getRecommendations _ _ _ _ _ _ _ h) as [r h'].
  assert (untouched h h') as [Hpre Harr] by (destruct r; [apply H | exact H]).
  assert (forall l c, h !! l = Some c -> h' !! l = Some c) as Hkeep.
  { intros l c Hl. by eapply prefix_lookup_Some. }
  split; [done|]. split.
  - intros ps. by apply catalogAt_preserved.
  - intros out ->. destruct H as [_ Hout]. split; [done|].
    intros entries. by apply Harr.
Qed.

(** ** The store: the ranking computes the ranked list *)

Lemma productAt_mono h k l p : productAt h l p -> productAt (h ++ k) l p.
Proof.
  intros (f & Hl & Hf). exists f.
  split; by apply lookup_app_l_Some.
Qed.

Lemma rankedAt_mono h k l r : rankedAt h l r -> rankedAt (h ++ k) l r.
Proof.
  intros (f & Hl & Hf). exists f.
  split; by apply lookup_app_l_Some.
Qed.

Lemma recommendationAt_mono h k l r :
  recommendationAt h l r -> recommendationAt (h ++ k) l r.
Proof. apply lookup_app_l_Some. Qed.

Lemma mapProducts_correct predictionArray index ls ps h :
  Forall2 (productAt h) ls ps ->
  exists cs,
    mapProducts predictionArray index ls h
      = (Ok (seq (length h) (length ls)), h ++ cs)
    /\ Forall2 (rankedAt (h ++ cs)) (seq (length h) (length ls))
         (imap (fun i => initialRanked predictionArray (index + i)) ps).
Proof.
  revert index ps h.
  induction ls as [|l ls IH]; intros index ps h H.
  - apply Forall2_nil_inv_l in H as ->. exists []. simpl.
    rewrite app_nil_r. by split.
  - apply Forall2_cons_inv_l in H as (p & ps' & Hp & Hps & ->).
    destruct Hp as (f & Hl & Hf).
    set (c := CRanked (index + 1) (name p) (predictionArray !! index) f (price p)).
    destruct (IH (S index) ps' (h ++ [c])) as (cs & Hrun & Hrel).
    { eapply Forall2_impl; [exact Hps|]. intros. by apply productAt_mono. }
    exists (c :: cs). rewrite length_app in Hrun, Hrel. simpl in Hrun, Hrel.
    replace (length h + 1)%nat with (S (length h)) in Hrun, Hrel by lia.
    rewrite <- app_assoc in Hrun, Hrel. simpl in Hrun, Hrel.
    split.
    + simpl. unfold mbind, ST_bind, read. rewrite Hl.
      unfold alloc at 1. fold c. by rewrite Hrun.
    + rewrite imap_cons. simpl. constructor.
      * exists f. replace (index + 0)%nat with index by lia. split.
        -- by rewrite lookup_app_r, Nat.sub_diag by lia.
        -- by apply lookup_app_l_Some.
      * erewrite imap_ext; [exact Hrel|]. intros i x _. simpl.
        by replace (index + S i)%nat with (S index + i)%nat by lia.
Qed.

(** Sorting two lists related elementwise, with comparisons that agree on
    related elements, gives related lists. *)
Lemma sort_Forall2 {A B} (R : A -> B -> Prop)
    (cmpA : A -> A -> number) (cmpB : B -> B -> number) l k :
  (forall a b a' b', R a a' -> R b b' -> cmpA a b = cmpB a' b') ->
  Forall2 R l k -> Forall2 R (sort cmpA l) (sort cmpB k).
Proof.
  intros Hcmp H. induction H as [|a a' l k Ha _ IH]; simpl; [constructor|].
  revert IH. generalize (sort cmpA l) (sort cmpB k). clear l k.
  intros l k H. induction H as [|b b' l k Hb Hlk IH]; simpl.
  - by repeat constructor.
  - unfold after. rewrite (Hcmp a b a' b') by done.
    destruct (gtb _ _); by repeat constructor.
Qed.

Lemma rankedAt_score h l r : rankedAt h l r -> scoreAt h l = scoreNumber (score r).
Proof. intros (f & Hl & _). unfold scoreAt. by rewrite Hl. Qed.

(** Overwriting an array or a ranked object does not disturb the other
    ranked objects. *)
Lemma rankedAt_insert h x c l r :
  rankedAt h l r -> x <> l ->
  (forall phrases, h !! x <> Some (CFeatures phrases)) ->
  rankedAt (<[x := c]> h) l r.
Proof.
  intros (f & Hl & Hf) Hne Hx. exists f. split.
  - by rewrite list_lookup_insert_ne.
  - rewrite list_lookup_insert_ne; [done|]. intros ->. by eapply Hx.
Qed.

Lemma forEachRank_correct index ls rs h :
  Forall2 (rankedAt h) ls rs -> NoDup ls ->
  exists h',
    forEachRank index ls h = (Ok tt, h')
    /\ Forall2 (rankedAt h') ls (imap (fun i => setRank (index + i)) rs)
    /\ (forall l, l ∉ ls -> h' !! l = h !! l).
Proof.
  revert index rs h.
  induction ls as [|l ls IH]; intros index rs h H Hnd.
  - apply Forall2_nil_inv_l in H as ->. exists h. by repeat split.
  - apply Forall2_cons_inv_l in H as (r & rs' & Hr & Hrs & ->).
    apply NoDup_cons in Hnd as [Hl Hnd].
    pose proof Hr as (f & Hcell & Hf).
    set (c := CRanked (index + 1) (productName r) (score r) f (rprice r)).
    assert (Forall2 (rankedAt (<[l := c]> h)) ls rs') as Hrs1.
    { apply Forall2_same_length_lookup. split; [by eapply Forall2_length|].
      intros i x y Hx Hy. apply rankedAt_insert.
      - by eapply Forall2_lookup_lr.
      - intros <-. apply Hl. by eapply list_elem_of_lookup_2.
      - intros phrases. by rewrite Hcell. }
    destruct (IH (S index) rs' (<[l := c]> h) Hrs1 Hnd) as (h' & Hrun & Hrel & Hframe).
    exists h'. split; [|split].
    + simpl. unfold mbind, ST_bind, read. rewrite Hcell.
      unfold write at 1. fold c. exact Hrun.
    + rewrite imap_cons. constructor.
      * exists f. simpl. replace (index + 0)%nat with index by lia.
        rewrite !Hframe.
        -- split.
           ++ apply list_lookup_insert_eq. by eapply lookup_lt_Some.
           ++ rewrite list_lookup_insert_ne; [done|]. intros ->. congruence.
        -- intros Hin. apply list_elem_of_lookup in Hin as [i Hi].
           destruct (Forall2_lookup_l _ _ _ _ _ Hrs1 Hi) as (y & _ & g & Hy & _).
           rewrite list_lookup_insert_ne in Hy by (intros ->; congruence).
           congruence.
        -- done.
      * erewrite imap_ext; [exact Hrel|]. intros i x _. simpl.
        by replace (index + S i)%nat with (S index + i)%nat by lia.
    + intros x Hx. apply not_elem_of_cons in Hx as [Hxl Hx].
      rewrite Hframe by done. by rewrite list_lookup_insert_ne.
Qed.

Lemma bind_ok {A B} (m : ST A) (k : A -> ST B) h a h' :
  m h = (Ok a, h') -> (m ≫= k) h = k a h'.
Proof. intros H. unfold mbind, ST_bind. by rewrite H. Qed.

Lemma alloc_run c h : alloc c h = (Ok (length h), h ++ [c]).
Proof. reflexivity. Qed.

Lemma readArray_ok h l els :
  h !! l = Some (CArray els) -> readArray l h = (Ok els, h).
Proof. intros H. unfold readArray, mbind, ST_bind, read. by rewrite H. Qed.

Lemma sortByScore_ok h l els :
  h !! l = Some (CArray els) ->
  sortByScore l h
  = (Ok tt, <[l := CArray (sort (fun a b => sub (scoreAt h b) (scoreAt h a)) els)]> h).
Proof. intros H. unfold sortByScore. by rewrite H. Qed.

(** On a store that holds the catalog [ps], the ranking part of
    [getRecommendations] always ends normally, and its array then holds the
    list [rankedProducts ps predictionArray]. *)
Lemma rankProducts_correct predictionArray products ps h :
  catalogAt h products ps ->
  exists rankedArray h',
    rankProducts predictionArray products h = (Ok rankedArray, h')
    /\ rankedArrayAt h' rankedArray (rankedProducts ps predictionArray).
Proof.
  intros (ls & Hcat & Hps). unfold rankProducts.
  rewrite (bind_ok _ _ _ _ _ (readArray_ok _ _ _ Hcat)).
  destruct (mapProducts_correct predictionArray 0 ls ps h Hps)
    as (cs & Hrun & Hcreated).
  rewrite (bind_ok _ _ _ _ _ Hrun). clear Hrun.
  set (created := seq (length h) (length ls)) in *.
  set (h1 := h ++ cs) in *.
  rewrite (bind_ok _ _ _ _ _ (alloc_run _ _)).
  set (arr := length h1). set (h2 := h1 ++ [CArray created]).
  assert (h2 !! arr = Some (CArray created)) as Harr.
  { unfold h2, arr. by rewrite lookup_app_r, Nat.sub_diag by lia. }
  assert (Forall2 (rankedAt h2) created
            (imap (initialRanked predictionArray) ps)) as Hcreated2.
  { eapply Forall2_impl; [exact Hcreated|]. intros. by apply rankedAt_mono. }
  rewrite (bind_ok _ _ _ _ _ (sortByScore_ok _ _ _ Harr)).
  set (sorted := sort (fun a b => sub (scoreAt h2 b) (scoreAt h2 a)) created).
  set (h3 := <[arr := CArray sorted]> h2).
  assert (h3 !! arr = Some (CArray sorted)) as Harr3.
  { unfold h3. apply list_lookup_insert_eq. by eapply lookup_lt_Some. }
  rewrite (bind_ok _ _ _ _ _ (readArray_ok _ _ _ Harr3)).
  assert (Forall2 (rankedAt h3) sorted
            (sort byScoreDesc (imap (initialRanked predictionArray) ps)))
    as Hsorted.
  { assert (Forall2 (rankedAt h2) sorted
              (sort byScoreDesc (imap (initialRanked predictionArray) ps)))
      as Hs2.
    { apply sort_Forall2; [|done]. intros a b a' b' Ha Hb.
      unfold byScoreDesc. by rewrite (rankedAt_score _ _ _ Ha),
                                     (rankedAt_score _ _ _ Hb). }
    eapply Forall2_impl; [exact Hs2|]. intros l r Hr.
    apply rankedAt_insert; [done| |].
    - intros ->. destruct Hr as (f & Hl & _). congruence.
    - intros phrases. by rewrite Harr. }
  assert (NoDup sorted) as Hnd.
  { unfold sorted. rewrite sort_perm. apply NoDup_seq. }
  destruct (forEachRank_correct 0 sorted _ h3 Hsorted Hnd)
    as (h4 & Hrun & Hranked & Hframe).
  rewrite (bind_ok _ _ _ _ _ Hrun). clear Hrun.
  fold (rankedProducts ps predictionArray) in Hranked.
  exists arr, h4. split; [done|]. exists sorted. split; [|done].
  rewrite Hframe; [done|].
  intros Hin. apply list_elem_of_lookup in Hin as [i Hi].
  destruct (Forall2_lookup_l _ _ _ _ _ Hsorted Hi) as (y & _ & g & Hy & _).
  congruence.
Qed.

Section refinement.
Variable numberToString : number -> string.
Variable toFixed : number -> nat -> string.
Variable stringToNumber : string -> number.

Abbreviation explain :=
  (withExplanation numberToString toFixed stringToNumber).

Lemma mapExplanations_correct customer ls rs h :
  Forall2 (rankedAt h) ls rs ->
  mapExplanations numberToString toFixed stringToNumber customer ls h
  = (Ok (seq (length h) (length ls)),
     h ++ (recommendationCell <$> (explain customer <$> rs))).
Proof.
  revert rs h. induction ls as [|l ls IH]; intros rs h H.
  - apply Forall2_nil_inv_l in H as ->. simpl. by rewrite app_nil_r.
  - apply Forall2_cons_inv_l in H as (r & rs' & Hr & Hrs & ->).
    destruct Hr as (f & Hl & Hf). destruct r as [rk pn sc fs pr].
    simpl in Hl, Hf. simpl. unfold mbind, ST_bind, read.
    rewrite Hl, Hf. unfold alloc at 1.
    rewrite (IH rs'); last first.
    { eapply Forall2_impl; [exact Hrs|]. intros. by apply rankedAt_mono. }
    rewrite length_app. simpl.
    replace (length h + 1)%nat with (S (length h)) by lia.
    by rewrite <- app_assoc.
Qed.

Lemma logEach_correct ls rs h :
  Forall2 (recommendationAt h) ls rs ->
  logEach ls h
  = (if decide (Forall (fun r => is_Some (score' r)) rs)
     then Ok tt else Throw TypeError, h).
Proof.
  intros H. induction H as [|l r ls rs Hl _ IH].
  - by rewrite decide_True.
  - simpl logEach. unfold mbind, ST_bind, read. rewrite Hl. unfold recommendationCell.
    destruct (score' r) as [s|] eqn:Hs.
    + rewrite IH. destruct (decide (Forall _ rs)) as [Hrs|Hrs].
      * rewrite decide_True; [done|]. constructor; [by rewrite Hs|done].
      * rewrite decide_False; [done|]. by intros [_ ?]%Forall_cons.
    + rewrite decide_False; [done|].
      intros [Hr _]%Forall_cons. rewrite Hs in Hr. by destruct Hr.
Qed.

(** On a ranked array, the rest of [getRecommendations] ends normally
    exactly when each of the first three entries has a score, and the array
    it returns then holds the explained list. *)
Lemma explainRanked_correct customer rankedProducts rs h :
  rankedArrayAt h rankedProducts rs ->
  match explainRanked numberToString toFixed stringToNumber
          customer rankedProducts h with
  | (Ok out, h') =>
    top3Scored (explain customer <$> rs)
    /\ recommendationsAt h' out (explain customer <$> rs)
  | (Throw _, _) => ~ top3Scored (explain customer <$> rs)
  end.
Proof.
  intros (sorted & Harr & Hranked). unfold explainRanked.
  rewrite (bind_ok _ _ _ _ _ (readArray_ok _ _ _ Harr)).
  rewrite (bind_ok _ _ _ _ _ (mapExplanations_correct customer sorted rs h Hranked)).
  set (ranked := explain customer <$> rs).
  set (explained := seq (length h) (length sorted)).
  set (h5 := h ++ (recommendationCell <$> ranked)).
  rewrite (bind_ok _ _ _ _ _ (alloc_run _ _)).
  assert (length ranked = length sorted) as Hlen.
  { unfold ranked. rewrite length_fmap. symmetry. by eapply Forall2_length. }
  assert (Forall2 (recommendationAt (h5 ++ [CArray explained])) explained ranked)
    as Hexplained.
  { apply Forall2_same_length_lookup. split.
    { unfold explained. by rewrite length_seq. }
    intros i l r Hl Hr. unfold explained in Hl.
    apply lookup_seq in Hl as [-> Hi].
    apply recommendationAt_mono. unfold recommendationAt, h5.
    rewrite lookup_app_r by lia.
    replace (length h + i - length h)%nat with i by lia.
    by rewrite list_lookup_fmap, Hr. }
  unfold mbind, ST_bind.
  rewrite (logEach_correct (take 3 explained) (take 3 ranked)
             (h5 ++ [CArray explained])) by by apply Forall2_take.
  fold (top3Scored ranked).
  destruct (decide (top3Scored ranked)) as [Htop|Htop]; [|done].
  split; [done|]. exists explained. split; [|done].
  by rewrite lookup_app_r, Nat.sub_diag by lia.
Qed.

(** On a store that holds the catalog [ps], [rankAndExplain] ends normally
    exactly when each of the first three entries has a score, and the array
    it returns then holds the list [rankedProductsWithExplanations]. *)
Lemma rankAndExplain_correct customer predictionArray products ps h :
  catalogAt h products ps ->
  let ranked := rankedProductsWithExplanations numberToString toFixed
                  stringToNumber customer ps predictionArray in
  match rankAndExplain numberToString toFixed stringToNumber
          customer predictionArray products h with
  | (Ok out, h') => top3Scored ranked /\ recommendationsAt h' out ranked
  | (Throw _, _) => ~ top3Scored ranked
  end.
Proof.
  intros Hcat ranked. unfold rankAndExplain.
  destruct (rankProducts_correct predictionArray products ps h Hcat)
    as (arr & h1 & Hrun & Harr).
  rewrite (bind_ok _ _ _ _ _ Hrun).
  apply (explainRanked_correct customer arr _ h1 Harr).
Qed.
End refinement.

(** ** Ranking: order, stability and ranks *)

(** The order on scores that the ranking sorts for: [a] may come before [b]
    when [b]'s score is at most [a]'s. *)
Lemma catalogScored_numbers products predictionArray :
  (length products <= length predictionArray)%nat ->
  Forall (fun x => isNaN x = false) predictionArray ->
  Forall (fun e => exists x, scoreOf e = Some x /\ isNaN x = false)
         (catalogScored products predictionArray).
Proof.
  intros Hlen Hscores.
  apply Forall_lookup. intros i e Hi. unfold catalogScored in Hi.
  rewrite list_lookup_imap in Hi.
  destruct (products !! i) as [p|] eqn:Hp; simplify_eq/=.
  apply lookup_lt_Some in Hp.
  destruct (lookup_lt_is_Some_2 predictionArray i) as [x Hx]; [lia|].
  exists x. split; [done|].
  by eapply (Forall_lookup_1 _ _ _ _ Hscores).
Qed.

Lemma rankedProducts_descending products predictionArray :
  (length products <= length predictionArray)%nat ->
  Forall (fun x => isNaN x = false) predictionArray ->
  StronglySorted (fun a b => descending (scoreOf a) (scoreOf b))
    (rankedScored <$> rankedProducts products predictionArray).
Proof.
  intros Hlen Hscores. rewrite rankedProducts_scored.
  apply (sort_sorted byScore _
           (fun e => exists x, scoreOf e = Some x /\ isNaN x = false)).
  - intros x y z Hxy Hyz. unfold descending in *. by eapply leb_trans.
  - intros x y (sx & Hx & Hnx) (sy & Hy & Hny). unfold after, byScore, descending.
    rewrite Hx, Hy. unfold scoreNumber, default.
    rewrite gtb_sub_zero by done. by apply ltb_false_leb.
  - intros x y (sx & Hx & Hnx) (sy & Hy & Hny). unfold after, byScore, descending.
    rewrite Hx, Hy. unfold scoreNumber, default.
    rewrite gtb_sub_zero by done. apply ltb_leb.
  - by apply catalogScored_numbers.
Qed.

Lemma leb_antisym x y : leb x y = true -> leb y x = true -> x = y.
Proof.
  destruct x as [| | |a], y as [| | |b]; try done.
  rewrite !leb_Fin. intros H1 H2. f_equal. by apply Qcle_antisym.
Qed.

(** The ranked list does not depend on how the sort is carried out: any
    arrangement of the catalog entries that is in descending order of score
    and keeps the entries of every score in catalog order is the list that
    [rankedProducts] yields. *)
Lemma ranking_determined products predictionArray (l : list scored) :
  (length products <= length predictionArray)%nat ->
  Forall (fun x => isNaN x = false) predictionArray ->
  StronglySorted (fun a b => descending (scoreOf a) (scoreOf b)) l ->
  (forall s, withScore s l
             = withScore s (catalogScored products predictionArray)) ->
  l = rankedScored <$> rankedProducts products predictionArray.
Proof.
  intros Hlen Hscores Hsorted Hstable.
  pose proof (catalogScored_numbers _ _ Hlen Hscores) as Hnum.
  apply (sorted_stable_unique scoreOf descending); [|done|..].
  - intros a b Ha Hb Hab Hba.
    assert (forall e, e ∈ l -> exists x, scoreOf e = Some x) as Hsome.
    { intros e He.
      assert (e ∈ withScore (scoreOf e) l) as Hin
        by by apply list_elem_of_filter.
      rewrite Hstable in Hin. apply list_elem_of_filter in Hin as [_ Hin].
      destruct (proj1 (Forall_forall _ _) Hnum e Hin) as (x & Hx & _). eauto. }
    destruct (Hsome a Ha) as [x Hx], (Hsome b Hb) as [y Hy].
    unfold descending in Hab, Hba. rewrite Hx, Hy in *. f_equal.
    by apply leb_antisym.
  - by apply rankedProducts_descending.
  - intros s. fold (withScore s l).
    fold (withScore s (rankedScored <$> rankedProducts products predictionArray)).
    rewrite Hstable. unfold withScore. rewrite rankedProducts_scored.
    symmetry. apply sort_filter. intros a b Ha Hb.
    apply after_byScore_equal. congruence.
Qed.




(** C5: for every catalog of N products and every score array, the ranked
    list (the array [rankedProducts] after the sort and the renumbering, which
    the ranking code always produces, and whose ranks, names, scores and
    prices the returned list repeats) has exactly N entries, one per catalog
    item (a permutation of the catalog items with their scores, none
    filtered), and the rank values are 1, 2, ..., N in output order, each
    entry's rank being its position. *)
Theorem ranking_dense_ranks (products : list Product)
    (predictionArray : list number) :
  let ranked := rankedProducts products predictionArray in
  length ranked = length products
  /\ rankedScored <$> ranked ≡ₚ catalogScored products predictionArray
  /\ rank <$> ranked = seq 1 (length products)
  /\ (forall i r, ranked !! i = Some r -> rank r = (i + 1)%nat)
  /\ (forall h productsRef, catalogAt h productsRef products ->
        exists rankedArray h',
          rankProducts predictionArray productsRef h = (Ok rankedArray, h')
          /\ rankedArrayAt h' rankedArray ranked)
  /\ (forall numberToString toFixed stringToNumber customer,
        let returned := rankedProductsWithExplanations numberToString toFixed
                          stringToNumber customer products predictionArray in
        recScored <$> returned = rankedScored <$> ranked
        /\ rank' <$> returned = rank <$> ranked).
Proof.
  intros ranked.
  assert (rank <$> ranked = seq 1 (length products)) as Hrank
    by apply rankedProducts_rank.
  assert (length ranked = length products) as Hlen.
  { by rewrite <- (length_fmap rank), Hrank, length_seq. }
  split; [done|]. split; [|split; [done|split; [|split]]].
  - unfold ranked. rewrite rankedProducts_scored. apply sort_perm.
  - intros i r Hi.
    assert ((rank <$> ranked) !! i = Some (rank r)) as Hr
      by by rewrite list_lookup_fmap, Hi.
    rewrite Hrank in Hr. apply lookup_seq in Hr as [-> _]. lia.
  - intros h productsRef Hcat. by apply rankProducts_correct.
  - intros numberToString toFixed stringToNumber customer returned.
    unfold returned, ranked. split.
    + by rewrite recommendations_scored, rankedProducts_scored.
    + by rewrite recommendations_rank, rankedProducts_rank.
Qed.

Lemma bind_inv {A B} (m : ST A) (k : A -> ST B) h b h' :
  (m ≫= k) h = (Ok b, h') ->
  exists a h1, m h = (Ok a, h1) /\ k a h1 = (Ok b, h').
Proof.
  unfold mbind, ST_bind. destruct (m h) as [[a|e] h1]; [eauto|done].
Qed.

Lemma lift_inv {A} (r : result A) h a h1 :
  lift r h = (Ok a, h1) -> r = Ok a /\ h1 = h.
Proof. by intros [= -> ->]. Qed.

(** When [getRecommendations] returns with normalization data at hand, on a
    store that holds the catalog [ps], the returned array holds the ranked
    and explained list computed from [ps] and the model's prediction. *)
Lemma getRecommendations_ranked
    (numberToString : number -> string) (toFixed : number -> nat -> string)
    (stringToNumber : string -> number)
    (model : option Model) (nd : NormalizationData)
    (customer : object) (products : loc) (ps : list Product)
    (h h' : heap) (out : loc) :
  catalogAt h products ps ->
  getRecommendations numberToString toFixed stringToNumber
    model (Some nd) customer products h = (Ok out, h') ->
  exists preprocessedCustomer predictionArray,
    preprocessCustomer customer = Ok preprocessedCustomer
    /\ recommendationsAt h' out
         (rankedProductsWithExplanations numberToString toFixed stringToNumber
            preprocessedCustomer ps predictionArray).
Proof.
  intros Hcat Hrun. unfold getRecommendations in Hrun.
  apply bind_inv in Hrun as (pc & h1 & [Hpc ->]%lift_inv & Hrun).
  apply bind_inv in Hrun as (t & h1 & [_ ->]%lift_inv & Hrun).
  apply bind_inv in Hrun as (n & h1 & [_ ->]%lift_inv & Hrun).
  apply bind_inv in Hrun as (c & h1 & [_ ->]%lift_inv & Hrun).
  apply bind_inv in Hrun as (predict & h1 & Hmodel & Hrun).
  assert (h1 = h) as ->.
  { destruct model; [by injection Hmodel as _ <-|done]. }
  apply bind_inv in Hrun as (predictionArray & h1 & [_ ->]%lift_inv & Hrun).
  exists pc, predictionArray. split; [done|].
  pose proof (rankAndExplain_correct numberToString toFixed stringToNumber
                pc predictionArray products ps h Hcat) as H.
  rewrite Hrun in H. by destruct H.
Qed.

(** ** The whole request on a well-formed input *)

Lemma tensor2d_features (o : object) (feats : list string) :
  Forall (fun f => exists n, o !! f = Some (VNum n)) feats ->
  exists ns, tensor2d (map (fun f => orZero (o !! f)) feats) = Ok ns
             /\ length ns = length feats.
Proof.
  induction 1 as [|f feats (n & Hn) _ (ns & IH & Hlen)].
  - by exists [].
  - exists (or0 n :: ns). split; [|by simpl; rewrite Hlen].
    unfold tensor2d in *. simpl. rewrite Hn. simpl. by rewrite IH.
Qed.

Lemma ranked_all_scored
    (numberToString : number -> string) (toFixed : number -> nat -> string)
    (stringToNumber : string -> number)
    (customer : object) (ps : list Product) (predictionArray : list number) :
  (length ps <= length predictionArray)%nat ->
  top3Scored (rankedProductsWithExplanations numberToString toFixed
                stringToNumber customer ps predictionArray).
Proof.
  intros Hlen. apply Forall_take.
  assert (Forall (fun e => is_Some (scoreOf e))
            (recScored <$> rankedProductsWithExplanations numberToString toFixed
               stringToNumber customer ps predictionArray)) as H;
    [|by rewrite Forall_fmap in H].
  rewrite recommendations_scored, sort_perm.
  apply Forall_lookup. intros i e Hi. unfold catalogScored in Hi.
  rewrite list_lookup_imap in Hi.
  destruct (ps !! i) as [p|] eqn:Hp; simplify_eq/=.
  apply lookup_lt_Some in Hp. apply lookup_lt_is_Some_2. lia.
Qed.

(** For every row of string fields, normalization data of the schema's
    width, a loaded model that answers every input of the schema's width with
    at least one score per catalog item, and a store holding the catalog
    [ps]: [getRecommendations] returns, and the array it returns holds the
    fully ranked and explained list. *)
Lemma getRecommendations_returns
    (numberToString : number -> string) (toFixed : number -> nat -> string)
    (stringToNumber : string -> number)
    (predict : Model) (nd : NormalizationData) (raw : rawCustomer)
    (products : loc) (ps : list Product) (h : heap) :
  length (inputMin nd) = length continuousFeatures ->
  length (inputMax nd) = length continuousFeatures ->
  (forall input,
     length input = length (continuousFeatures ++ categoricalFeatures) ->
     exists scores, predict input = Ok scores
                    /\ (length ps <= length scores)%nat) ->
  catalogAt h products ps ->
  exists out h' preprocessedCustomer predictionArray,
    extract raw = Ok preprocessedCustomer
    /\ getRecommendations numberToString toFixed stringToNumber
         (Some predict) (Some nd) (processCustomer raw) products h
       = (Ok out, h')
    /\ recommendationsAt h' out
         (rankedProductsWithExplanations numberToString toFixed stringToNumber
            preprocessedCustomer ps predictionArray).
Proof.
  intros Hmin Hmax Hpredict Hcat.
  pose proof (extract_ok raw) as Hpc.
  set (size := coverageSize _ _) in Hpc.
  set (pc := oneHotEncoded (processCustomer raw) size) in Hpc.
  assert (Forall (fun f => exists n, pc !! f = Some (VNum n))
            (continuousFeatures ++ categoricalFeatures)) as Hall.
  { apply Forall_forall. intros k Hk.
    destruct (extract_schema_number raw size k Hk) as (n & Hn & _). eauto. }
  apply Forall_app in Hall as [Hcont Hcateg].
  destruct (tensor2d_features pc _ Hcont) as (xs & Hxs & Hlenx).
  destruct (tensor2d_features pc _ Hcateg) as (cs & Hcs & Hlenc).
  assert (exists normalized, normalizeContinuous xs nd = Ok normalized
                             /\ length normalized = length xs)
    as (normalized & Hnorm & Hlenn).
  { eexists. split; [apply normalizeContinuous_same_length; congruence|].
    rewrite length_zip_with, length_zip_with, length_map, length_zip_with.
    lia. }
  destruct (Hpredict (normalized ++ cs)) as (scores & Hscores & Hlen).
  { rewrite !length_app. congruence. }
  pose proof (rankAndExplain_correct numberToString toFixed stringToNumber
                pc scores products ps h Hcat) as Hrank.
  destruct (rankAndExplain _ _ _ pc scores products h) as [[out|e] h'] eqn:Hrun.
  - exists out, h', pc, scores. split; [done|]. split; [|by destruct Hrank].
    unfold getRecommendations. fold (extract raw). rewrite Hpc.
    rewrite (bind_ok _ _ h pc h) by done.
    rewrite Hxs, (bind_ok _ _ h xs h) by done.
    rewrite Hnorm, (bind_ok _ _ h normalized h) by done.
    rewrite Hcs, (bind_ok _ _ h cs h) by done.
    rewrite (bind_ok _ _ h predict h) by done.
    rewrite Hscores, (bind_ok _ _ h scores h) by done.
    exact Hrun.
  - destruct Hrank. by apply ranked_all_scored.
Qed.

(** A request for a small household in CA against a two-item catalog: the
    category is "Small", only the CA bit is set, both items are ranked, and
    the explanation of "Identity Protection" names the state. *)
Example sample_request :
  processCustomer sampleRow !! "coverage_size" = Some (VStr "Small")
  /\ processCustomer sampleRow !! "state_CA" = Some (VNum (num_of_Z 1))
  /\ processCustomer sampleRow !! "state_TX" = Some (VNum zero)
  /\ match getRecommendations (fun _ => "450") (fun _ _ => "0.00") (fun _ => NaN)
             (Some sampleModel) (Some sampleNormalization)
             (processCustomer sampleRow) 4%nat sampleStore with
     | (Ok out, h') =>
       (fun e => (e.1.1, e.1.2, includes "Living in CA" e.2)) <$> entriesAt h' out
       = [ (1%nat, "Identity Protection", true); (2%nat, "Fiber 500", false) ]
       /\ take 5 h' = sampleStore
     | (Throw _, _) => False
     end.
Proof. vm_compute. repeat split. Qed.

(** ** Strings: trim and split *)

Lemma splitBy_length p s : length (splitBy p s) = S (countChars p s).
Proof.
  induction s as [|c s IH]; [done|].
  simpl. destruct (p c); simpl; [by rewrite IH|].
  destruct (splitBy p s); simpl in *; lia.
Qed.

Lemma splitBy_allChars p s :
  Forall (fun piece => allChars (fun c => negb (p c)) piece = true) (splitBy p s).
Proof.
  induction s as [|c s IH]; [by repeat constructor|].
  simpl. destruct (p c) eqn:Hc; [by constructor|].
  destruct (splitBy p s) as [|piece pieces].
  - repeat constructor. simpl. by rewrite Hc.
  - apply Forall_cons in IH as [Hp Hps]. constructor; [|done].
    simpl. by rewrite Hc, Hp.
Qed.

Lemma allChars_trimStart p s : allChars p s = true -> allChars p (trimStart s) = true.
Proof.
  induction s as [|c s IH]; [done|]. intros H. simpl.
  destruct (isWhite c); [|done]. simpl in H.
  apply andb_true_iff in H as [_ H]. by apply IH.
Qed.

Lemma allChars_trimEnd p s : allChars p s = true -> allChars p (trimEnd s) = true.
Proof.
  induction s as [|c s IH]; [done|]. simpl. intros [Hc Hs]%andb_true_iff.
  destruct (isEmpty (trimEnd s) && isWhite c); [done|].
  simpl. by rewrite Hc, IH.
Qed.

Lemma allChars_trim p s : allChars p s = true -> allChars p (trim s) = true.
Proof. intros H. by apply allChars_trimEnd, allChars_trimStart. Qed.

Lemma trimEnd_idemp s : trimEnd (trimEnd s) = trimEnd s.
Proof.
  induction s as [|c s IH]; [done|]. simpl.
  destruct (isEmpty (trimEnd s) && isWhite c) eqn:H; [done|].
  simpl. by rewrite IH, H.
Qed.

Lemma trimStart_startsBlack s : startsBlack (trimStart s).
Proof.
  induction s as [|c s IH]; [done|]. simpl.
  destruct (isWhite c) eqn:Hc; [done|]. simpl. done.
Qed.

Lemma trimStart_id s : startsBlack s -> trimStart s = s.
Proof. destruct s as [|c s]; [done|]. simpl. by intros ->. Qed.

Lemma trimEnd_startsBlack s : startsBlack s -> startsBlack (trimEnd s).
Proof.
  destruct s as [|c s]; [done|]. simpl. intros Hc.
  rewrite Hc, andb_false_r. done.
Qed.

Lemma trim_idemp s : trim (trim s) = trim s.
Proof.
  unfold trim.
  rewrite (trimStart_id (trimEnd (trimStart s))).
  - apply trimEnd_idemp.
  - apply trimEnd_startsBlack, trimStart_startsBlack.
Qed.

(** ** The product catalog *)

Lemma scanLines_no_header inTable lines :
  Forall notHeader lines ->
  scanLines inTable lines = if inTable then omap productOfLine lines else [].
Proof.
  intros H. induction H as [|l lines Hl _ IH]; [by destruct inTable|].
  simpl. unfold notHeader in Hl. rewrite Hl, IH.
  unfold productOfLine. destruct inTable; simpl; [|done].
  destruct (startsWith "|" (trim l)); [|done].
  by destruct (productOfRow (trim l)).
Qed.

Lemma scanLines_header inTable pre hd l1 l2 rest :
  Forall notHeader pre -> isHeaderLine (trim hd) = true ->
  Forall notHeader rest ->
  scanLines inTable (pre ++ hd :: l1 :: l2 :: rest)
  = (if inTable then omap productOfLine pre else []) ++ omap productOfLine rest.
Proof.
  intros Hpre Hhd Hrest. induction Hpre as [|l pre Hl _ IH].
  - simpl. rewrite Hhd, scanLines_no_header by done. by destruct inTable.
  - simpl. unfold notHeader in Hl. rewrite Hl, IH.
    unfold productOfLine. destruct inTable; simpl; [|done].
    destruct (startsWith "|" (trim l)); [|done].
    by destruct (productOfRow (trim l)).
Qed.

Lemma notHeader_all lines :
  forallb (fun l => negb (isHeaderLine (trim l))) lines = true ->
  Forall notHeader lines.
Proof.
  induction lines as [|l lines IH]; [by constructor|].
  simpl. intros [Hl H]%andb_true_iff. constructor; [|by apply IH].
  unfold notHeader. by destruct (isHeaderLine (trim l)).
Qed.

(** X1: a catalog file in which no line, once trimmed, starts with a bar
    and contains "Product Name" yields no product at all, however many table
    rows it has; so does a missing file. *)
Theorem catalog_without_header (fileContent : string) :
  Forall notHeader (splitBy isNewline fileContent) ->
  loadProductData (Some fileContent) = [] /\ loadProductData None = [].
Proof.
  intros H. split; [|done]. unfold loadProductData.
  by rewrite scanLines_no_header.
Qed.

Lemma catalog_without_header_witness :
  loadProductData (Some headlessCatalog) = [].
Proof.
  apply (catalog_without_header headlessCatalog).
  apply notHeader_all. vm_compute. reflexivity.
Defined.

(** X2: for a file with one header line, the products loaded are exactly
    those of the lines from the third line after the header on: the two
    lines that follow the header (the separator and the first row below it)
    are never read, whatever they hold; lines before the header are ignored;
    and below the header every line that starts with a bar is read as a row,
    also after lines of other text. *)
Theorem catalog_rows_after_header (fileContent : string)
    (pre : list string) (hd l1 l2 : string) (rest : list string) :
  splitBy isNewline fileContent = pre ++ hd :: l1 :: l2 :: rest ->
  Forall notHeader pre -> isHeaderLine (trim hd) = true ->
  Forall notHeader rest ->
  loadProductData (Some fileContent) = omap productOfLine rest.
Proof.
  intros Hlines Hpre Hhd Hrest. unfold loadProductData.
  rewrite Hlines. by rewrite scanLines_header.
Qed.

Lemma catalog_rows_after_header_witness :
  name <$> loadProductData (Some sampleCatalog) = ["Fiber 1 Gig"; "Total Shield"].
Proof.
  rewrite (catalog_rows_after_header sampleCatalog
             ["# Catalog"] "| Product Name | Features | Price |"
             "|---|---|---|" "| Fiber 500 | Fast. Reliable | $45.00/mo |"
             ["| Fiber 1 Gig | Faster. | $65/mo |"; "Some prose.";
              "| Total Shield | Security | Free |"; "| Broken row | no price"]).
  - vm_compute. reflexivity.
  - vm_compute. reflexivity.
  - apply notHeader_all. vm_compute. reflexivity.
  - vm_compute. reflexivity.
  - apply notHeader_all. vm_compute. reflexivity.
Defined.

Lemma productOfRow_columns line :
  is_Some (productOfRow line)
  <-> (3 <= length (take (length (tail (map trim (splitBy isBar line))) - 1)
                      (tail (map trim (splitBy isBar line)))))%nat.
Proof.
  unfold productOfRow.
  destruct (take _ _) as [|a [|b [|c l]]]; simpl; split;
    try (intros [? [=]]); try lia; eauto.
Qed.

(** X3: a table row yields a product exactly when it holds at least four
    bars, that is, three cells and the closing bar: the first and the last
    piece of the split are dropped. *)
Theorem row_needs_four_bars (line : string) :
  is_Some (productOfRow line) <-> (4 <= countChars isBar line)%nat.
Proof.
  rewrite productOfRow_columns.
  rewrite length_take, length_tl, length_map, splitBy_length. simpl. lia.
Qed.

Lemma scanLines_elem p lines inTable :
  p ∈ scanLines inTable lines ->
  exists l, l ∈ lines /\ productOfRow (trim l) = Some p.
Proof.
  remember (length lines) as n eqn:Hn.
  revert lines inTable Hn.
  induction n as [n IH] using lt_wf_ind. intros lines inTable -> Hp.
  destruct lines as [|l rest]; [by apply elem_of_nil in Hp|].
  simpl in Hp. destruct (isHeaderLine (trim l)).
  - destruct rest as [|l1 [|l2 rest']]; try by apply elem_of_nil in Hp.
    destruct (IH (length rest') ltac:(simpl; lia) rest' true eq_refl Hp)
      as (l' & Hl' & Hrow).
    exists l'. split; [|done]. by do 3 apply list_elem_of_further.
  - assert (p ∈ scanLines inTable rest ->
            exists l', l' ∈ l :: rest /\ productOfRow (trim l') = Some p) as Hrest.
    { intros H.
      destruct (IH (length rest) ltac:(simpl; lia) rest inTable eq_refl H)
        as (l' & Hl' & Hrow).
      exists l'. split; [by apply list_elem_of_further|done]. }
    destruct (inTable && startsWith "|" (trim l)); [|by apply Hrest].
    destruct (productOfRow (trim l)) as [q|] eqn:Hq; [|by apply Hrest].
    apply elem_of_cons in Hp as [->|Hp]; [|by apply Hrest].
    exists l. split; [apply list_elem_of_here|done].
Qed.

Lemma loadProductData_elem p file :
  p ∈ loadProductData file -> exists line, productOfRow line = Some p.
Proof.
  destruct file as [content|]; simpl; [|by intros ?%elem_of_nil].
  intros (l & _ & H)%scanLines_elem. eauto.
Qed.

Lemma productOfRow_inv line p :
  productOfRow line = Some p ->
  exists column featuresText priceText,
    column ∈ splitBy isBar line
    /\ name p = trim column
    /\ features p = filter (fun feature => feature <> EmptyString)
                      (map trim (splitBy isFeatureSeparator featuresText))
    /\ price p = match priceMatch priceText with
                 | Some g => parseFloatStr g
                 | None => zero
                 end.
Proof.
  unfold productOfRow.
  destruct (take _ _) as [|a [|b [|c l]]] eqn:Hcols; try done.
  intros [= <-]. simpl.
  assert (a ∈ map trim (splitBy isBar line)) as Ha.
  { assert (a ∈ take (length (tail (map trim (splitBy isBar line))) - 1)
                   (tail (map trim (splitBy isBar line)))) as H
      by (rewrite Hcols; apply list_elem_of_here).
    apply elem_of_take in H as (i & H & _).
    rewrite lookup_tail in H. by eapply list_elem_of_lookup_2. }
  apply list_elem_of_fmap in Ha as (column & -> & Hcol).
  by exists column, b, c.
Qed.

(** X4: every product loaded has a trimmed name without a bar, and each of
    its features is non-empty, trimmed and free of a separator character. *)
Theorem catalog_names_and_features (file : option string) (p : Product) :
  p ∈ loadProductData file ->
  trim (name p) = name p
  /\ allChars (fun c => negb (isBar c)) (name p) = true
  /\ Forall (fun feature =>
               feature <> EmptyString
               /\ trim feature = feature
               /\ allChars (fun c => negb (isFeatureSeparator c)) feature = true)
            (features p).
Proof.
  intros (line & Hrow)%loadProductData_elem.
  apply productOfRow_inv in Hrow as (col & ft & pt & Hcol & -> & -> & _).
  split; [apply trim_idemp|]. split.
  - apply allChars_trim.
    pose proof (splitBy_allChars isBar line) as H.
    rewrite Forall_forall in H. by apply H.
  - apply Forall_forall. intros f [Hne Hf]%list_elem_of_filter.
    apply list_elem_of_fmap in Hf as (piece & -> & Hpiece).
    split; [done|]. split; [apply trim_idemp|].
    apply allChars_trim.
    pose proof (splitBy_allChars isFeatureSeparator ft) as H.
    rewrite Forall_forall in H. by apply H.
Qed.

Lemma catalog_names_and_features_witness :
  exists p, loadProductData (Some sampleCatalog) !! 0%nat = Some p
    /\ name p = "Fiber 1 Gig" /\ features p = ["Faster"]
    /\ trim (name p) = name p
    /\ Forall (fun feature => trim feature = feature) (features p).
Proof.
  eexists. split; [vm_compute; reflexivity|].
  split; [reflexivity|]. split; [reflexivity|].
  edestruct (catalog_names_and_features (Some sampleCatalog)) as (Hn & _ & Hf).
  { eapply list_elem_of_lookup_2 with (i := 0%nat). vm_compute. reflexivity. }
  split; [exact Hn|].
  eapply Forall_impl; [exact Hf|]. by intros f (_ & ? & _).
Defined.

(** *** Prices *)

Lemma span_allChars p s a b : span p s = (a, b) -> allChars p a = true.
Proof.
  revert a b. induction s as [|c s IH]; intros a b; simpl.
  - by intros [= <- <-].
  - destruct (p c) eqn:Hc; [|by intros [= <- <-]].
    destruct (span p s) as [a' b'] eqn:Hs. intros [= <- <-].
    simpl. rewrite Hc. by eapply IH.
Qed.

Lemma allChars_app p (a b : string) :
  allChars p (a +:+ b) = allChars p a && allChars p b.
Proof.
  induction a as [|c a IH]; [done|].
  rewrite string_app_cons. simpl. by rewrite IH, andb_assoc.
Qed.

Lemma digitsValue_nonneg s acc :
  allChars isDigit s = true -> 0 <= acc -> 0 <= digitsValue 10 acc s.
Proof.
  revert acc. induction s as [|c s IH]; intros acc Hs Hacc; [done|].
  simpl in *. apply andb_true_iff in Hs as [Hc Hs]. apply IH; [done|].
  unfold digitVal. rewrite Hc. unfold isDigit in Hc. lia.
Qed.

Lemma pow10_pos e : (0 < pow10 e)%Qc.
Proof.
  unfold pow10. destruct (0 <=? e) eqn:He.
  - rewrite <- Z2Qc_inj_0. apply (proj1 (Z2Qc_inj_lt _ _)).
    apply Z.pow_pos_nonneg; lia.
  - apply Qcinv_pos. rewrite <- Z2Qc_inj_0. apply (proj1 (Z2Qc_inj_lt _ _)).
    apply Z.pow_pos_nonneg; lia.
Qed.

(** Reading a number that starts with a digit or a dot. *)
Lemma parseFloatStr_unsigned c s :
  isDigitOrDot c = true ->
  parseFloatStr (String c s) = NaN
  \/ exists q, parseFloatStr (String c s) = Fin q /\ (0 <= q)%Qc.
Proof.
  intros Hc. unfold parseFloatStr.
  assert (trimStart (String c s) = String c s) as ->.
  { simpl. replace (isWhite c) with false; [done|].
    unfold isDigitOrDot, isDigit, isWhite in *. generalize dependent (code c).
    intros z. lia. }
  assert (splitSign (String c s) = (1, String c s)) as ->.
  { unfold splitSign.
    destruct c as [[] [] [] [] [] [] [] []]; try done; vm_compute in Hc; done. }
  assert (String.prefix "Infinity" (String c s) = false) as ->.
  { simpl. destruct c as [[] [] [] [] [] [] [] []]; try done;
      vm_compute in Hc; done. }
  destruct (span isDigit (String c s)) as [ip r1] eqn:Hip.
  destruct (match r1 with String "." r => span isDigit r | _ => (EmptyString, r1) end)
    as [fp r2] eqn:Hfp.
  destruct (isEmpty ip && isEmpty fp); [by left|]. right.
  eexists. split; [reflexivity|].
  assert (allChars isDigit ip = true) as Hipd by by eapply span_allChars.
  assert (allChars isDigit fp = true) as Hfpd.
  { destruct r1 as [|d r]; [by injection Hfp as <- _|].
    destruct (Ascii.eqb d ".") eqn:Hd.
    - apply Ascii.eqb_eq in Hd as ->. by eapply span_allChars.
    - destruct d as [[] [] [] [] [] [] [] []];
        try (by injection Hfp as <- _); done. }
  rewrite <- Z2Qc_inj_0.
  replace (Qc_of_Z 0) with (Qc_of_Z 0 * pow10 (exponentPart r2
             - Z.of_nat (String.length fp)))%Qc by (rewrite Z2Qc_inj_0; ring).
  apply Qcmult_le_compat_r.
  - apply (proj1 (Z2Qc_inj_le _ _)). rewrite Z.mul_1_l.
    apply digitsValue_nonneg; [|done]. by rewrite allChars_app, Hipd, Hfpd.
  - apply Qclt_le_weak, pow10_pos.
Qed.

Lemma priceMatch_digits s g :
  priceMatch s = Some g ->
  exists c g', g = String c g' /\ isDigitOrDot c = true.
Proof.
  induction s as [|c s IH]; [done|]. simpl.
  destruct (code c =? 36); [|done].
  destruct (span isDigitOrDot s) as [g0 r] eqn:Hs.
  destruct (isEmpty g0) eqn:Hg; [done|]. intros [= <-].
  destruct g0 as [|d g']; [done|]. exists d, g'. split; [done|].
  apply span_allChars in Hs. simpl in Hs. by apply andb_true_iff in Hs as [? _].
Qed.



(** ** The server *)

Lemma toLowerCase_isEmpty s : isEmpty (toLowerCase s) = isEmpty s.
Proof. by destruct s. Qed.

Lemma isEmpty_true s : isEmpty s = true <-> s = EmptyString.
Proof. by destruct s. Qed.

Lemma isEmpty_false s : s <> EmptyString -> isEmpty s = false.
Proof. by destruct s. Qed.

Section server_properties.
Variable numberToString : number -> string.
Variable toFixed : number -> nat -> string.
Variable stringToNumber : string -> number.
Variable model : option Model.
Variable normalizationData : option NormalizationData.

Abbreviation handler :=
  (recommendationsHandler numberToString toFixed stringToNumber
     model normalizationData).
Abbreviation recommend :=
  (getRecommendations numberToString toFixed stringToNumber
     model normalizationData).

Lemma nameMatches_case q q' c :
  toLowerCase q = toLowerCase q' ->
  nameMatches (QString q) c = nameMatches (QString q') c.
Proof. intros H. unfold nameMatches. by rewrite H. Qed.

Lemma findCustomer_case q q' customers :
  toLowerCase q = toLowerCase q' ->
  findCustomer (QString q) customers = findCustomer (QString q') customers.
Proof.
  intros H. induction customers as [|c cs IH]; [done|].
  simpl. by rewrite (nameMatches_case q q' c H), IH.
Qed.

(** X6: the customer lookup ignores letter case: two requests whose names
    differ only in case get the same answer and leave the same store. *)
Theorem lookup_ignores_case (customers : list object) (products : loc)
    (q q' : string) (h : heap) :
  toLowerCase q = toLowerCase q' ->
  handler customers products (Some (QString q)) h
  = handler customers products (Some (QString q')) h.
Proof.
  intros H. unfold recommendationsHandler.
  rewrite (findCustomer_case q q' customers H).
  by rewrite <- (toLowerCase_isEmpty q), H, toLowerCase_isEmpty.
Qed.

(** X7: whatever the request and its outcome, every object that existed
    before it is afterwards as it was (the catalog among them); a JSON answer
    is an array created by the request; and an answer with status 400 or 404
    adds nothing to the store. *)
Theorem request_leaves_store (customers : list object) (products : loc)
    (customerName : option queryValue) (h : heap) :
  let '(r, h') := handler customers products customerName h in
  (forall l c, h !! l = Some c -> h' !! l = Some c)
  /\ (forall ps, catalogAt h products ps -> catalogAt h' products ps)
  /\ (forall out, r = json out -> isNew h out)
  /\ (forall status body, r = send status body -> status <> 500%nat -> h' = h).
Proof.
  unfold recommendationsHandler.
  destruct customerName as [customerName|]; [|by repeat split].
  destruct (match customerName with QString q => isEmpty q | QOther => false end);
    [by repeat split|].
  destruct (findCustomer customerName customers) as [[customer|]|e];
    [|by repeat split..].
  pose proof (keeps_getRecommendations numberToString toFixed stringToNumber
                h model normalizationData customer products h
                (untouched_refl h)) as H.
  destruct (getRecommendations _ _ _ _ _ _ _ h) as [[out|e] h'].
  - destruct H as [[Hpre _] Hout].
    assert (forall l c, h !! l = Some c -> h' !! l = Some c) as Hkeep.
    { intros l c Hl. by eapply prefix_lookup_Some. }
    repeat split; [done| |by intros ? [= <-]|done].
    intros ps. by apply catalogAt_preserved.
  - destruct H as [Hpre _].
    assert (forall l c, h !! l = Some c -> h' !! l = Some c) as Hkeep.
    { intros l c Hl. by eapply prefix_lookup_Some. }
    repeat split; [done| |done|by intros ? ? [= <- _]].
    intros ps. by apply catalogAt_preserved.
Qed.

Lemma processCustomer_customerName raw :
  processCustomer raw !! "customerName" = Some (VStr (rowName raw)).
Proof. reflexivity. Qed.

Lemma nameMatches_row q raw :
  q <> EmptyString ->
  nameMatches (QString q) (processCustomer raw) = Ok (rowMatches q raw).
Proof.
  intros Hq. unfold nameMatches, rowMatches.
  rewrite processCustomer_customerName.
  destruct (isEmpty (rowName raw)) eqn:He; [|done].
  apply isEmpty_true in He. rewrite He.
  destruct (String.eqb_spec (toLowerCase "") (toLowerCase q)) as [Heq|_]; [|done].
  exfalso. apply Hq. apply isEmpty_true.
  by rewrite <- toLowerCase_isEmpty, <- Heq.
Qed.

Lemma findCustomer_rows q rows :
  q <> EmptyString ->
  findCustomer (QString q) (processCustomer <$> rows)
  = Ok (processCustomer <$> List.find (rowMatches q) rows).
Proof.
  intros Hq. induction rows as [|raw rows IH]; [done|].
  change (findCustomer (QString q) (processCustomer <$> raw :: rows))
    with (matches ← nameMatches (QString q) (processCustomer raw);
          if matches : bool then Ok (Some (processCustomer raw))
          else findCustomer (QString q) (processCustomer <$> rows)).
  rewrite nameMatches_row by done.
  change (List.find (rowMatches q) (raw :: rows))
    with (if rowMatches q raw then Some raw else List.find (rowMatches q) rows).
  simpl. by destruct (rowMatches q raw).
Qed.

(** X8: against the customers loaded from the rows [rows], a request with
    a non-empty name is answered for the first row whose name (the first
    non-empty one of the columns CustomerName, customerName and
    customer_name) equals the requested one up to letter case, and with 404
    "Customer not found." when there is no such row; the lookup itself never
    fails. *)
Theorem lookup_by_row_name (rows : list rawCustomer) (products : loc)
    (q : string) (h : heap) :
  q <> EmptyString ->
  handler (processCustomer <$> rows) products (Some (QString q)) h
  = match List.find (rowMatches q) rows with
    | Some raw => answer (recommend (processCustomer raw) products h)
    | None => (send 404 "Customer not found.", h)
    end.
Proof.
  intros Hq. unfold recommendationsHandler.
  rewrite findCustomer_rows, (isEmpty_false q) by done.
  by destruct (List.find _ rows).
Qed.

Lemma findCustomer_named customerName customers c :
  findCustomer customerName customers = Ok (Some c) ->
  isTruthy (c !! "customerName") = true.
Proof.
  induction customers as [|c' cs IH]; [done|]. simpl.
  destruct (nameMatches customerName c') as [[]|] eqn:Hm; simpl; [|done..].
  intros [= <-]. unfold nameMatches in Hm.
  destruct (c' !! "customerName") as [[n|s]|]; simpl.
  - by destruct (truthy n).
  - by destruct (isEmpty s).
  - done.
Qed.
End server_properties.

Section served.
Variable numberToString : number -> string.
Variable toFixed : number -> nat -> string.
Variable stringToNumber : string -> number.

Abbreviation serve :=
  (recommendationsHandler numberToString toFixed stringToNumber).
Abbreviation ranking :=
  (rankedProductsWithExplanations numberToString toFixed stringToNumber).

Lemma rankedProductsWithExplanations_length customer ps predictionArray :
  length (ranking customer ps predictionArray) = length ps.
Proof.
  rewrite <- (length_fmap rank'), recommendations_rank.
  apply length_seq.
Qed.


(** X10: with normalization data at hand but no model (loading it failed),
    [getRecommendations] always throws and leaves the store as it was, so the
    server never answers such a request with recommendations. *)
Theorem model_missing_is_an_error (nd : NormalizationData) :
  (forall customer products h,
     exists e, getRecommendations numberToString toFixed stringToNumber
                 None (Some nd) customer products h = (Throw e, h))
  /\ (forall customers products customerName h,
        exists status body,
          serve None (Some nd) customers products customerName h
          = (send status body, h)).
Proof.
  assert (forall customer products h,
     exists e, getRecommendations numberToString toFixed stringToNumber
                 None (Some nd) customer products h = (Throw e, h)) as Hthrow.
  { intros customer products h. unfold getRecommendations, lift, mbind, ST_bind.
    destruct (preprocessCustomer customer) as [pc|e]; [|by eexists].
    destruct (tensor2d _) as [xs|e]; [|by eexists].
    destruct (normalizeContinuous xs nd) as [ns|e]; [|by eexists].
    destruct (tensor2d _) as [cs|e]; [|by eexists].
    by eexists. }
  split; [done|].
  intros customers products customerName h. unfold recommendationsHandler.
  destruct customerName as [customerName|]; [|by eexists _, _].
  destruct (match customerName with QString q => isEmpty q | QOther => false end);
    [by eexists _, _|].
  destruct (findCustomer customerName customers) as [[customer|]|e];
    [|by eexists _, _..].
  destruct (Hthrow customer products h) as [e ->]. by eexists _, _.
Qed.

Lemma getRecommendations_inv (predict : Model) nd customer products h out h' :
  getRecommendations numberToString toFixed stringToNumber
    (Some predict) (Some nd) customer products h = (Ok out, h') ->
  exists preprocessedCustomer input predictionArray,
    preprocessCustomer customer = Ok preprocessedCustomer
    /\ predict input = Ok predictionArray
    /\ rankAndExplain numberToString toFixed stringToNumber
         preprocessedCustomer predictionArray products h = (Ok out, h').
Proof.
  intros Hrun. unfold getRecommendations in Hrun.
  apply bind_inv in Hrun as (pc & h1 & [Hpc ->]%lift_inv & Hrun).
  apply bind_inv in Hrun as (t & h1 & [_ ->]%lift_inv & Hrun).
  apply bind_inv in Hrun as (n & h1 & [_ ->]%lift_inv & Hrun).
  apply bind_inv in Hrun as (c & h1 & [_ ->]%lift_inv & Hrun).
  apply bind_inv in Hrun as (predict' & h1 & [= <- <-] & Hrun).
  apply bind_inv in Hrun as (predictionArray & h1 & [Hp ->]%lift_inv & Hrun).
  by exists pc, (n ++ c), predictionArray.
Qed.

Lemma unscored_not_top3 customer ps :
  ps <> [] -> ~ top3Scored (ranking customer ps []).
Proof.
  intros Hps Htop.
  assert (Forall (fun e => scoreOf e = None)
            (recScored <$> ranking customer ps [])) as Hnone.
  { rewrite recommendations_scored, sort_perm.
    apply Forall_lookup. intros i e Hi. unfold catalogScored in Hi.
    rewrite list_lookup_imap in Hi.
    destruct (ps !! i) as [p|]; by simplify_eq/=. }
  rewrite Forall_fmap in Hnone.
  pose proof (rankedProductsWithExplanations_length customer ps []) as Hlen.
  destruct (ranking customer ps []) as [|r rs] eqn:Hr.
  - destruct ps; [done|]. simpl in Hlen. lia.
  - unfold top3Scored in Htop. simpl in Htop.
    apply Forall_cons in Htop as [[s Hs] _].
    apply Forall_cons in Hnone as [Hn _].
    unfold scoreOf, recScored in Hn. simpl in Hn. congruence.
Qed.

(** X11: if the model returns no score at all for a catalog that is not
    empty, [getRecommendations] throws: the debugging log of the first three
    entries formats a score that is undefined. *)
Theorem no_scores_is_an_error (predict : Model) (nd : NormalizationData)
    (customer : object) (products : loc) (ps : list Product) (h : heap) :
  (forall input, predict input = Ok []) ->
  ps <> [] ->
  catalogAt h products ps ->
  exists e h', getRecommendations numberToString toFixed stringToNumber
                 (Some predict) (Some nd) customer products h = (Throw e, h').
Proof.
  intros Hpredict Hps Hcat.
  destruct (getRecommendations _ _ _ _ _ _ _ h) as [[out|e] h'] eqn:Hrun;
    [|by eauto].
  apply getRecommendations_inv in Hrun as (pc & input & scores & _ & Hs & Hrun).
  rewrite Hpredict in Hs. injection Hs as <-.
  pose proof (rankAndExplain_correct numberToString toFixed stringToNumber
                pc [] products ps h Hcat) as H.
  rewrite Hrun in H. destruct H as [Htop _].
  by apply unscored_not_top3 in Htop.
Qed.
End served.

(** ** One-hot encodings and their decoding *)

Lemma one_not_zero : num_of_Z 1 <> zero.
Proof. intros H. by apply (inj Fin), Z2Qc_inj in H. Qed.

Lemma find_eqb (u : string) (l : list string) :
  List.find (String.eqb u) l = if bool_decide (u ∈ l) then Some u else None.
Proof.
  induction l as [|x l IH]; [done|]. simpl.
  destruct (String.eqb_spec u x) as [->|Hne].
  - by rewrite bool_decide_true by apply list_elem_of_here.
  - rewrite IH. apply (f_equal (fun b : bool => if b then Some u else None)).
    apply bool_decide_ext. rewrite elem_of_cons.
    split; [by right|by intros [?|?]].
Qed.

Lemma find_ext_Forall {A} (f g : A -> bool) (l : list A) :
  Forall (fun x => f x = g x) l -> List.find f l = List.find g l.
Proof. induction 1 as [|x l Hx _ IH]; [done|]. simpl. by rewrite Hx, IH. Qed.

Section decoding.
Variable numberToString : number -> string.
Variable toFixed : number -> nat -> string.
Variable stringToNumber : string -> number.

Lemma stateBit_one field state :
  bool_decide (Some (stateBit field state) = Some (VNum (num_of_Z 1)))
  = match field with
    | Some s => negb (isEmpty s) && String.eqb (toUpperCase s) state
    | None => false
    end.
Proof.
  unfold stateBit. destruct field as [s|].
  - destruct (negb (isEmpty s) && String.eqb (toUpperCase s) state).
    + by rewrite bool_decide_true.
    + rewrite bool_decide_false; [done|].
      intros H. apply one_not_zero. congruence.
  - rewrite bool_decide_false; [done|].
    intros H. apply one_not_zero. congruence.
Qed.

(** X12: [getState] decodes the one-hot state encoding of extraction: for a
    customer extracted from a row it returns the row's state in capitals
    when that is one of the ten listed states, and "Unknown" otherwise (also
    when the field is absent or empty). *)
Theorem state_decoded (raw : rawCustomer) (customer : object) :
  extract raw = Ok customer ->
  getState customer
  = match raw !! "state" with
    | Some s =>
      if bool_decide (toUpperCase s ∈ states) then toUpperCase s else "Unknown"
    | None => "Unknown"
    end.
Proof.
  rewrite extract_ok. intros [= <-]. set (cs := coverageSize _ _). clearbody cs.
  unfold getState.
  rewrite (find_ext_Forall _
             (fun state => match raw !! "state" with
                           | Some s => negb (isEmpty s)
                                       && String.eqb (toUpperCase s) state
                           | None => false
                           end)).
  - destruct (raw !! "state") as [s|].
    + destruct s as [|c s].
      * simpl. clear. by induction states.
      * simpl negb. rewrite (find_ext_Forall _ (String.eqb (toUpperCase (String c s))))
          by by apply Forall_forall.
        rewrite find_eqb. by destruct (bool_decide _).
    + clear. by induction states.
  - apply Forall_forall. intros state Hstate.
    rewrite extract_state by done. apply stateBit_one.
Qed.

Lemma state_decoded_witness :
  exists customer, extract sampleRow = Ok customer /\ getState customer = "CA".
Proof.
  eexists. split; [apply extract_ok|].
  rewrite (state_decoded sampleRow _ (extract_ok sampleRow)).
  vm_compute. reflexivity.
Defined.
End decoding.

(** Membership in a list that is given by its elements. *)
Ltac in_list :=
  repeat first [apply list_elem_of_here | apply list_elem_of_further].

Lemma coverageSize_cases extenders totalDevices :
  coverageSize extenders totalDevices ∈ coverageSizes.
Proof.
  unfold coverageSize, coverageSizes.
  destruct (_ || _); [in_list|]. destruct (_ && _); in_list.
Qed.

(** X13: in an extracted customer exactly one of the three coverage-size
    indicators is 1, the one of the customer's [coverage_size], which is
    "Small", "Medium" or "Large"; the other two are 0. *)
Theorem coverage_one_hot (raw : rawCustomer) (customer : object) :
  extract raw = Ok customer ->
  exists cs, cs ∈ coverageSizes
    /\ customer !! "coverage_size" = Some (VStr cs)
    /\ forall size, size ∈ coverageSizes ->
         customer !! ("coverage_size_" +:+ size)
         = Some (VNum (if decide (size = cs) then num_of_Z 1 else zero)).
Proof.
  rewrite extract_ok. intros [= <-].
  set (cs := coverageSize _ _).
  assert (cs ∈ coverageSizes) as Hcs by apply coverageSize_cases.
  exists cs. split; [done|]. split.
  - change (processCustomer raw !! "coverage_size" = Some (VStr cs)).
    rewrite processCustomer_coverage_size, !or0_parseInt, add_num_of_Z. done.
  - intros size Hsize. rewrite extract_coverage by done.
    clearbody cs. unfold coverageSizes in Hcs, Hsize.
    repeat (apply elem_of_cons in Hcs as [-> | Hcs]);
      try (by apply elem_of_nil in Hcs);
      repeat (apply elem_of_cons in Hsize as [-> | Hsize]);
      try (by apply elem_of_nil in Hsize);
      vm_compute; reflexivity.
Qed.

Lemma coverage_one_hot_witness :
  exists customer, extract sampleRow = Ok customer
    /\ customer !! "coverage_size_Small" = Some (VNum (num_of_Z 1))
    /\ customer !! "coverage_size_Large" = Some (VNum zero).
Proof.
  eexists. split; [apply extract_ok|].
  destruct (coverage_one_hot sampleRow _ (extract_ok sampleRow))
    as (cs & Hcs & Hsize & Hbits).
  assert (cs = "Small") as -> by (vm_compute in Hsize; congruence).
  split.
  - apply (Hbits "Small"). in_list.
  - apply (Hbits "Large"). in_list.
Defined.

(** X14: in an extracted customer at most one of the ten state indicators
    is 1. *)
Theorem state_one_hot (raw : rawCustomer) (customer : object)
    (state1 state2 : string) :
  extract raw = Ok customer ->
  state1 ∈ states -> state2 ∈ states ->
  customer !! stateKey state1 = Some (VNum (num_of_Z 1)) ->
  customer !! stateKey state2 = Some (VNum (num_of_Z 1)) ->
  state1 = state2.
Proof.
  rewrite extract_ok. intros [= <-] H1 H2.
  rewrite !extract_state by done. intros Hb1 Hb2.
  pose proof (bool_decide_eq_true_2 _ Hb1) as Hd1.
  pose proof (bool_decide_eq_true_2 _ Hb2) as Hd2.
  rewrite stateBit_one in Hd1, Hd2. clear Hb1 Hb2.
  rename Hd1 into Hb1, Hd2 into Hb2.
  destruct (raw !! "state") as [s|]; [|done].
  apply andb_true_iff in Hb1 as [_ Hb1]. apply andb_true_iff in Hb2 as [_ Hb2].
  apply String.eqb_eq in Hb1, Hb2. congruence.
Qed.

Lemma state_one_hot_witness :
  exists customer, extract sampleRow = Ok customer
    /\ customer !! stateKey "CA" = Some (VNum (num_of_Z 1))
    /\ customer !! stateKey "TX" <> Some (VNum (num_of_Z 1)).
Proof.
  eexists. split; [apply extract_ok|].
  assert (oneHotEncoded (processCustomer sampleRow)
            (coverageSize
               (num_of_Z (intField (sampleRow !! "extenders")))
               (num_of_Z (intField (sampleRow !! "wireless_clients_count")
                          + intField (sampleRow !! "wired_clients_count"))))
          !! stateKey "CA" = Some (VNum (num_of_Z 1))) as Hca.
  { rewrite extract_state by in_list. vm_compute. reflexivity. }
  split; [exact Hca|]. intros Htx.
  assert ("CA" = "TX") as H; [|discriminate H].
  apply (state_one_hot sampleRow _ "CA" "TX" (extract_ok sampleRow));
    [in_list|in_list|exact Hca|exact Htx].
Defined.

(** ** Preprocessing twice *)

Lemma forEachState_lookup f state :
  state ∈ states -> forEachState f !! stateKey state = Some (f state).
Proof.
  intros Hin. unfold states in Hin.
  repeat (apply elem_of_cons in Hin as [-> | Hin]); try reflexivity.
  by apply elem_of_nil in Hin.
Qed.

Lemma forEachState_ext f g :
  (forall state, state ∈ states -> f state = g state) ->
  forEachState f = forEachState g.
Proof.
  intros H. unfold forEachState, states in *. simpl.
  rewrite !H by in_list. done.
Qed.

Lemma union_absorb (a b c : object) : a ∪ (b ∪ (a ∪ (b ∪ c))) = a ∪ (b ∪ c).
Proof.
  apply map_eq. intros k. rewrite !lookup_union.
  by destruct (a !! k), (b !! k), (c !! k).
Qed.

(** X15: preprocessing is idempotent: preprocessing a customer that
    [preprocessCustomers] returned gives the same customer again. *)
Theorem preprocess_idempotent (customer preprocessed : object) :
  preprocessCustomer customer = Ok preprocessed ->
  preprocessCustomer preprocessed = Ok preprocessed.
Proof.
  unfold preprocessCustomer.
  destruct (customer !! "coverage_size") as [[n|cs]|] eqn:Hcs; try done.
  intros [= <-].
  assert (oneHotEncoded customer cs !! "coverage_size" = Some (VStr cs)) as ->.
  { unfold oneHotEncoded, spread. rewrite !lookup_union.
    replace (forEachState _ !! "coverage_size") with (@None jsval)
      by reflexivity.
    replace (foldl _ _ coverageSizes !! "coverage_size") with (@None jsval)
      by reflexivity.
    by rewrite Hcs. }
  f_equal. unfold oneHotEncoded at 1. fold (oneHotEncoded customer cs).
  set (stateOneHot := forEachState _).
  assert (stateOneHot = forEachState (fun state =>
            match customer !! stateKey state with
            | Some (VNum n) =>
              if eqb n (num_of_Z 1) then VNum (num_of_Z 1) else VNum zero
            | _ => VNum zero
            end)) as ->.
  { apply forEachState_ext. intros state Hstate.
    assert (oneHotEncoded customer cs !! stateKey state
            = Some (match customer !! stateKey state with
                    | Some (VNum n) =>
                      if eqb n (num_of_Z 1) then VNum (num_of_Z 1) else VNum zero
                    | _ => VNum zero
                    end)) as ->.
    { unfold oneHotEncoded, spread.
      by apply lookup_union_Some_l, forEachState_lookup. }
    destruct (customer !! stateKey state) as [[n|s]|]; try done.
    by destruct (eqb n (num_of_Z 1)). }
  unfold oneHotEncoded, spread. apply union_absorb.
Qed.

Lemma preprocess_idempotent_witness :
  exists customer, extract sampleRow = Ok customer
                   /\ preprocessCustomer customer = Ok customer.
Proof.
  eexists. split; [apply extract_ok|].
  apply (preprocess_idempotent (processCustomer sampleRow)).
  apply (extract_ok sampleRow).
Defined.

(** ** Explanations *)
Section explanations.
Variable numberToString : number -> string.
Variable toFixed : number -> nat -> string.
Variable stringToNumber : string -> number.

(** X16: every explanation begins with the same sentence, which greets the
    customer by name ("Valued Customer" when the name is absent or empty) and
    names the product, and continues with text that is not empty, whichever
    template applies. *)
Theorem explanation_greets (customer : object) (product : RankedProduct) :
  exists rest,
    generateAIExplanation numberToString toFixed stringToNumber customer product
    = ("Hi " +:+ greetedName numberToString customer
         +:+ ", based on your current setup, we recommend "
         +:+ productName product +:+ ".") +:+ rest
    /\ rest <> EmptyString.
Proof.
  unfold generateAIExplanation, greetedName.
  repeat match goal with
         | |- context [if includes ?k ?s then _ else _] =>
           destruct (includes k s)
         end;
    eexists; (split; [reflexivity|discriminate]).
Qed.
End explanations.

(** ** Training labels *)
Section label_properties.
Variable stringToNumber : string -> number.

Lemma findIndex_Some target products i :
  findIndex target products = Some i ->
  exists p, products !! i = Some p
    /\ toLowerCase (name p) = target
    /\ forall j q, products !! j = Some q -> (j < i)%nat ->
                   toLowerCase (name q) <> target.
Proof.
  unfold findIndex. destruct (list_find _ products) as [[i' p]|] eqn:H; [|done].
  intros [= <-]. apply list_find_Some in H as (Hp & Ht & Hfirst). eauto.
Qed.

Lemma findIndex_distinct t t' products i j :
  findIndex t products = Some i -> findIndex t' products = Some j ->
  t <> t' -> i <> j.
Proof.
  intros (p & Hp & Ht & _)%findIndex_Some (q & Hq & Ht' & _)%findIndex_Some Hne ->.
  congruence.
Qed.

Lemma mark_length products target label :
  length (mark products target label) = length label.
Proof.
  unfold mark. destruct (findIndex target products); [|done].
  apply length_insert.
Qed.

Lemma mark_bits products target label :
  Forall isBitNumber label -> Forall isBitNumber (mark products target label).
Proof.
  intros H. unfold mark. destruct (findIndex target products) as [i|]; [|done].
  apply Forall_insert; [done|]. by right.
Qed.

(** A property of the label that holds after the rule for the fiber tier
    and is kept by every later rule holds of the label assigned. *)
Lemma assignLabel_inv (I : string -> list number -> Prop)
    (products : list Product) (customer : object) :
  (forall tier, tier ∈ fiberTiers ->
     I tier (mark products tier (replicate (length products) zero))) ->
  (forall tier target label,
     target ∈ otherTargets -> I tier label ->
     I tier (mark products target label)) ->
  exists tier, tier ∈ fiberTiers
               /\ I tier (assignLabel stringToNumber products customer).
Proof.
  intros Hbase Hstep.
  assert (forall tier target label (b : bool),
            target ∈ otherTargets -> I tier label ->
            I tier (if b then mark products target label else label)) as Hif.
  { intros tier target label [] Ht Hl; [by apply Hstep|done]. }
  unfold assignLabel. cbv zeta.
  destruct (leb _ (num_of_Z 500));
    [|destruct (leb _ (num_of_Z 1000));
      [|destruct (leb _ (num_of_Z 2000));
        [|destruct (leb _ (num_of_Z 5000))]]];
    (eexists; split; [|do 7 (apply Hif; [in_list|]); apply Hbase]; in_list).
Qed.

(** X17: the label assigned to a customer has one entry per product, each
    0 or 1. *)
Theorem label_shape (products : list Product) (customer : object) :
  length (assignLabel stringToNumber products customer) = length products
  /\ Forall isBitNumber (assignLabel stringToNumber products customer).
Proof.
  destruct (assignLabel_inv
              (fun _ label => length label = length products
                              /\ Forall isBitNumber label)
              products customer) as (_ & _ & H); [| |done].
  - intros tier _. split.
    + by rewrite mark_length, length_replicate.
    + apply mark_bits, Forall_replicate. by left.
  - intros _ target label _ [Hlen Hbits]. split.
    + by rewrite mark_length.
    + by apply mark_bits.
Qed.

Lemma mark_lookup_one products target label i :
  mark products target label !! i = Some (num_of_Z 1) ->
  findIndex target products = Some i \/ label !! i = Some (num_of_Z 1).
Proof.
  unfold mark. destruct (findIndex target products) as [j|]; [|by right].
  destruct (decide (j = i)) as [->|Hne]; [by left|].
  rewrite list_lookup_insert_ne by done. by right.
Qed.

(** X18: a product is labelled 1 only if its lower-cased name is one of
    the twelve names the rules look for and no earlier product has the same
    lower-cased name; every other product is labelled 0 for every
    customer. *)
Theorem label_only_targets (products : list Product) (customer : object)
    (i : nat) :
  assignLabel stringToNumber products customer !! i = Some (num_of_Z 1) ->
  exists p, products !! i = Some p
    /\ toLowerCase (name p) ∈ labelTargets
    /\ forall j q, products !! j = Some q -> (j < i)%nat ->
                   toLowerCase (name q) <> toLowerCase (name p).
Proof.
  destruct (assignLabel_inv
              (fun _ label => forall i, label !! i = Some (num_of_Z 1) ->
                 exists target, target ∈ labelTargets
                                /\ findIndex target products = Some i)
              products customer) as (_ & _ & H).
  - intros tier Htier k [Hk|Hk]%mark_lookup_one.
    + exists tier. split; [|done]. apply elem_of_app. by left.
    + apply lookup_replicate in Hk as [Hk _].
      by apply one_not_zero in Hk.
  - intros _ target label Htarget IH k [Hk|Hk]%mark_lookup_one.
    + exists target. split; [|done]. apply elem_of_app. by right.
    + by apply IH.
  - intros (target & Htarget & Hfind)%H.
    apply findIndex_Some in Hfind as (p & Hp & <- & Hfirst). eauto.
Qed.

Lemma mark_lookup_other products target label i :
  findIndex target products <> Some i ->
  mark products target label !! i = label !! i.
Proof.
  intros Hne. unfold mark. destruct (findIndex target products) as [j|]; [|done].
  apply list_lookup_insert_ne. congruence.
Qed.

Lemma fiber_not_other tier target :
  tier ∈ fiberTiers -> target ∈ otherTargets -> tier <> target.
Proof.
  unfold fiberTiers, otherTargets. intros Ht Ho ->.
  repeat (apply elem_of_cons in Ht as [->|Ht]);
    try (by apply elem_of_nil in Ht);
    repeat (apply elem_of_cons in Ho as [Ho|Ho]; [discriminate Ho|]);
    by apply elem_of_nil in Ho.
Qed.

(** X19: for every customer the rules select exactly one fiber tier: among
    the products found under the five tier names, the one found under the
    selected name is labelled 1 and the others are labelled 0. *)
Theorem one_fiber_tier (products : list Product) (customer : object) :
  exists tier, tier ∈ fiberTiers
    /\ forall t i, t ∈ fiberTiers -> findIndex t products = Some i ->
         (assignLabel stringToNumber products customer !! i
          = Some (num_of_Z 1) <-> t = tier).
Proof.
  apply (assignLabel_inv
           (fun tier label =>
              forall t i, t ∈ fiberTiers -> findIndex t products = Some i ->
                (label !! i = Some (num_of_Z 1) <-> t = tier))).
  - intros tier Htier t i Ht Hi. split.
    + intros [Hk|Hk]%mark_lookup_one.
      * destruct (decide (t = tier)) as [|Hne]; [done|].
        by destruct (findIndex_distinct t tier products i i Hi Hk Hne).
      * apply lookup_replicate in Hk as [Hk _].
        by apply one_not_zero in Hk.
    + intros ->. unfold mark. rewrite Hi.
      apply list_lookup_insert_eq. rewrite length_replicate.
      apply findIndex_Some in Hi as (p & Hp & _). by eapply lookup_lt_Some.
  - intros tier target label Htarget IH t i Ht Hi.
    rewrite mark_lookup_other; [by apply IH|].
    intros Hj. apply (findIndex_distinct t target products i i Hi Hj); [|done].
    by apply fiber_not_other.
Qed.
End label_properties.

(** ** Training inputs *)

Lemma mapM_Ok {A B} (f : A -> result B) (g : A -> B) (l : list A) :
  Forall (fun x => f x = Ok (g x)) l -> mapM f l = Ok (map g l).
Proof.
  induction 1 as [|x l Hx _ IH]; [done|]. simpl. by rewrite Hx, IH.
Qed.

Lemma tensor2d_vector featureNames customer :
  forallb (numericFeature customer) featureNames = true ->
  tensor2d (map (fun feature => orZero (customer !! feature)) featureNames)
  = Ok (featureVector featureNames customer).
Proof.
  intros H. unfold tensor2d, featureVector.
  induction featureNames as [|f fs IH]; [done|].
  simpl in H. apply andb_true_iff in H as [Hf H].
  simpl. unfold numericFeature, featureValue in *.
  destruct (orZero (customer !! f)); [|done]. simpl. by rewrite IH.
Qed.

Lemma finite_numeric customer featureNames :
  forallb (finiteFeature customer) featureNames = true ->
  forallb (numericFeature customer) featureNames = true.
Proof.
  induction featureNames as [|f fs IH]; [done|]. simpl.
  intros [Hf H]%andb_true_iff. rewrite IH by done.
  unfold finiteFeature, numericFeature in *.
  by destruct (featureValue customer f).
Qed.

Lemma mapM_map_Ok {A B C} (f : B -> result C) (h : A -> B) (g : A -> C)
    (l : list A) :
  Forall (fun x => f (h x) = Ok (g x)) l -> mapM f (map h l) = Ok (map g l).
Proof.
  induction 1 as [|x l Hx _ IH]; [done|]. simpl. by rewrite Hx, IH.
Qed.

Lemma tensor2dRows_matrix featureNames customers :
  customers <> [] ->
  Forall (fun c => forallb (numericFeature c) featureNames = true) customers ->
  tensor2dRows (featureRows featureNames customers)
  = Ok (map (featureVector featureNames) customers).
Proof.
  intros Hne Hall. unfold tensor2dRows, featureRows.
  destruct customers as [|c cs]; [done|].
  set (rows := map _ (c :: cs)).
  assert (forallb (fun r => Nat.eqb (length r)
            (length (map (fun feature => orZero (c !! feature)) featureNames)))
            rows = true) as Hlen.
  { apply forallb_forall. intros r Hr. unfold rows in Hr.
    apply in_map_iff in Hr as (c' & <- & _).
    rewrite !length_map. apply Nat.eqb_refl. }
  change (match rows with
          | [] => Throw TensorError
          | row :: _ =>
            if forallb (fun r => Nat.eqb (length r) (length row)) rows
            then mapM tensor2d rows else Throw TensorError
          end = Ok (map (featureVector featureNames) (c :: cs))).
  unfold rows at 1. cbn [map]. fold rows. rewrite Hlen.
  unfold rows.
  apply (mapM_map_Ok tensor2d _ (featureVector featureNames) (c :: cs)).
  eapply Forall_impl; [exact Hall|]. intros c'. apply tensor2d_vector.
Qed.

(** *** Column maxima and minima *)
Section reduce_bounds.
Variable f : number -> number -> number.
Variable R : number -> number -> Prop.
Hypothesis f_bound : forall x y,
  isFinite x = true -> isFinite y = true ->
  isFinite (f x y) = true /\ R x (f x y) /\ R y (f x y).
Hypothesis R_refl : forall x, isFinite x = true -> R x x.
Hypothesis R_trans : forall x y z, R x y -> R y z -> R x z.

Lemma zip_with_bound m acc row :
  finiteRow m acc -> finiteRow m row ->
  finiteRow m (zip_with f acc row)
  /\ Forall2 R acc (zip_with f acc row)
  /\ Forall2 R row (zip_with f acc row).
Proof.
  intros [Hla Hfa] [Hlr Hfr]. subst m.
  revert row Hlr Hfr. induction Hfa as [|x acc Hx _ IH]; intros row Hlr Hfr.
  - destruct row; [|done]. repeat split; constructor.
  - destruct row as [|y row]; [done|].
    apply Forall_cons in Hfr as [Hy Hfr]. injection Hlr as Hlr.
    destruct (IH row Hlr Hfr) as ((Hlen & Hfin) & Hacc & Hrow).
    destruct (f_bound x y Hx Hy) as (Hf & Hxf & Hyf).
    repeat split; simpl; [by rewrite Hlen| |constructor..]; try done.
    by constructor.
Qed.

Lemma Forall2_R_trans (l k n : list number) :
  Forall2 R l k -> Forall2 R k n -> Forall2 R l n.
Proof.
  intros H. revert n. induction H as [|x y l k Hxy _ IH]; intros n Hn.
  - by inversion Hn.
  - inversion Hn as [|y' z k' n' Hyz Hkn]; subst.
    constructor; [by eapply R_trans|by apply IH].
Qed.

Lemma foldl_bound m rows acc :
  finiteRow m acc -> Forall (finiteRow m) rows ->
  finiteRow m (foldl (zip_with f) acc rows)
  /\ Forall2 R acc (foldl (zip_with f) acc rows)
  /\ Forall (fun row => Forall2 R row (foldl (zip_with f) acc rows)) rows.
Proof.
  intros Hacc Hrows. revert acc Hacc.
  induction Hrows as [|row rows Hrow _ IH]; intros acc Hacc; simpl.
  - repeat split; try apply Hacc; [|done].
    destruct Hacc as [_ Hfin].
    induction Hfin as [|x acc Hx _ IHacc]; constructor; [by apply R_refl|done].
  - destruct (zip_with_bound m acc row Hacc Hrow) as (Hz & Haz & Hrz).
    destruct (IH _ Hz) as (Hfin & Hzf & Hrest).
    repeat split; try apply Hfin.
    + by eapply Forall2_R_trans.
    + constructor; [by eapply Forall2_R_trans|done].
Qed.

Lemma reduceRows_bound m t :
  t <> [] -> Forall (finiteRow m) t ->
  finiteRow m (reduceRows f t)
  /\ Forall (fun row => Forall2 R row (reduceRows f t)) t.
Proof.
  intros Hne Ht. destruct t as [|row rows]; [done|].
  apply Forall_cons in Ht as [Hrow Hrows]. simpl.
  destruct (foldl_bound m rows row Hrow Hrows) as (Hfin & Hacc & Hrest).
  split; [done|]. by constructor.
Qed.
End reduce_bounds.

Lemma numMax_bound x y :
  isFinite x = true -> isFinite y = true ->
  isFinite (numMax x y) = true
  /\ leb x (numMax x y) = true /\ leb y (numMax x y) = true.
Proof.
  destruct x as [| | |a], y as [| | |b]; try done. intros _ _.
  unfold numMax. destruct (ltb (Fin a) (Fin b)) eqn:Hlt.
  - repeat split; [by apply ltb_leb|apply leb_Fin, Qcle_refl].
  - repeat split; [apply leb_Fin, Qcle_refl|by apply ltb_false_leb].
Qed.

Lemma numMin_bound x y :
  isFinite x = true -> isFinite y = true ->
  isFinite (numMin x y) = true
  /\ leb (numMin x y) x = true /\ leb (numMin x y) y = true.
Proof.
  destruct x as [| | |a], y as [| | |b]; try done. intros _ _.
  unfold numMin. destruct (ltb (Fin b) (Fin a)) eqn:Hlt.
  - repeat split; [by apply ltb_leb|apply leb_Fin, Qcle_refl].
  - repeat split; [apply leb_Fin, Qcle_refl|by apply ltb_false_leb].
Qed.

Lemma leb_refl_finite x : isFinite x = true -> leb x x = true.
Proof. destruct x; try done. intros _. apply leb_Fin, Qcle_refl. Qed.

(** The column maxima are finite and bound every entry of their column. *)
Lemma columnMax_bound m t :
  t <> [] -> Forall (finiteRow m) t ->
  finiteRow m (reduceRows numMax t)
  /\ Forall (fun row => Forall2 (fun v mx => leb v mx = true)
                                row (reduceRows numMax t)) t.
Proof.
  apply (reduceRows_bound numMax (fun v mx => leb v mx = true)).
  - apply numMax_bound.
  - apply leb_refl_finite.
  - apply leb_trans.
Qed.

Lemma columnMin_bound m t :
  t <> [] -> Forall (finiteRow m) t ->
  finiteRow m (reduceRows numMin t)
  /\ Forall (fun row => Forall2 (fun v mn => leb mn v = true)
                                row (reduceRows numMin t)) t.
Proof.
  apply (reduceRows_bound numMin (fun v mn => leb mn v = true)).
  - apply numMin_bound.
  - apply leb_refl_finite.
  - intros x y z Hxy Hyz. by eapply leb_trans.
Qed.

Lemma featureVector_finite customer :
  trainable customer = true ->
  finiteRow (length continuousFeatures)
    (featureVector continuousFeatures customer).
Proof.
  unfold trainable. intros [H _]%andb_true_iff. split.
  - apply length_map.
  - unfold featureVector. apply Forall_fmap.
    rewrite forallb_forall in H. apply Forall_forall. intros f Hf%list_elem_of_In.
    specialize (H f Hf). unfold finiteFeature in H. simpl.
    by destruct (featureValue customer f) as [[]|].
Qed.

(** One normalized entry, for a finite value between the column's minimum
    and maximum. *)
Lemma normalized_inUnit v mn mx :
  isFinite v = true -> isFinite mn = true -> isFinite mx = true ->
  leb mn v = true -> leb v mx = true ->
  inUnit (div (sub v mn) (safeDenom1 (sub mx mn))).
Proof.
  destruct v as [| | |a], mn as [| | |b], mx as [| | |c]; try done.
  intros _ _ _ Hba%leb_Fin Hac%leb_Fin.
  assert (0 <= a + - b)%Qc as Hab0 by by apply (proj1 (Qcle_minus_iff _ _)).
  assert (a + - b <= c + - b)%Qc as Hle by by apply (proj1 (Qcplus_le_mono_r _ _ _)).
  unfold safeDenom1. simpl sub.
  destruct (eqb (Fin (c + - b)) zero) eqn:Hz.
  - apply bool_decide_eq_true in Hz. apply (inj Fin) in Hz.
    rewrite Z2Qc_inj_0 in Hz. rewrite Hz in Hle.
    assert (a + - b = 0)%Qc as -> by by apply Qcle_antisym.
    unfold epsilon. simpl.
    replace (0 / / Qc_of_Z 100000000)%Qc with 0%Qc by (unfold Qcdiv; ring).
    split; apply leb_Fin; [by rewrite Z2Qc_inj_0|].
    rewrite Z2Qc_inj_1. done.
  - apply bool_decide_eq_false in Hz.
    assert (c + - b <> 0)%Qc as Hne.
    { intros H0. apply Hz. by rewrite H0, <- Z2Qc_inj_0. }
    assert (0 < c + - b)%Qc as Hpos.
    { assert (0 <= c + - b)%Qc as H0 by by eapply Qcle_trans.
      apply Qcle_lt_or_eq in H0 as [H0|H0]; [done|]. by symmetry in H0. }
    simpl. rewrite decide_False by done.
    assert (0 <= / (c + - b))%Qc as Hinv by by apply Qclt_le_weak, Qcinv_pos.
    split; apply leb_Fin.
    + rewrite Z2Qc_inj_0. unfold Qcdiv. by apply Qcmult_nonneg_nonneg.
    + rewrite Z2Qc_inj_1. unfold Qcdiv.
      rewrite <- (Qcmult_inv_r (c + - b)) by done.
      by apply Qcmult_le_compat_r.
Qed.

Lemma broadcast_same f (a b : list number) :
  length a = length b -> broadcast f a b = Ok (zip_with f a b).
Proof. intros H. unfold broadcast. by rewrite decide_True. Qed.

Lemma broadcastRows_same f (t : list (list number)) (v : list number) :
  Forall (fun row => length row = length v) t ->
  broadcastRows f t v = Ok (map (fun row => zip_with f row v) t).
Proof.
  intros H. unfold broadcastRows.
  rewrite <- (map_id t) at 1. apply mapM_map_Ok.
  eapply Forall_impl; [exact H|]. intros row Hrow. by apply broadcast_same.
Qed.

(** The row of the training inputs for a customer, from the column maxima
    and minima. *)
Lemma prepareInputs_ok customers :
  customers <> [] ->
  Forall (fun c => trainable c = true) customers ->
  let t := map (featureVector continuousFeatures) customers in
  let mx := reduceRows numMax t in
  let mn := reduceRows numMin t in
  prepareInputs customers
  = Ok ({| inputMax := mx; inputMin := mn |},
        map (fun c =>
               zip_with div
                 (zip_with sub (featureVector continuousFeatures c) mn)
                 (map safeDenom1 (zip_with sub mx mn))
               ++ featureVector categoricalFeatures c) customers)
  /\ finiteRow (length continuousFeatures) mx
  /\ finiteRow (length continuousFeatures) mn.
Proof.
  intros Hne Hall t mx mn.
  assert (Forall (finiteRow (length continuousFeatures)) t) as Ht.
  { unfold t. apply Forall_fmap. eapply Forall_impl; [exact Hall|].
    intros c. apply featureVector_finite. }
  assert (t <> []) as Htne by (unfold t; by destruct customers).
  destruct (columnMax_bound _ t Htne Ht) as [Hmx _].
  destruct (columnMin_bound _ t Htne Ht) as [Hmn _].
  fold mx in Hmx. fold mn in Hmn.
  split; [|done].
  unfold prepareInputs.
  rewrite (tensor2dRows_matrix continuousFeatures); [|done|]; last first.
  { eapply Forall_impl; [exact Hall|]. intros c Hc. unfold trainable in Hc.
    apply andb_true_iff in Hc as [Hc _]. by apply finite_numeric. }
  rewrite (tensor2dRows_matrix categoricalFeatures); [|done|]; last first.
  { eapply Forall_impl; [exact Hall|]. intros c Hc. unfold trainable in Hc.
    by apply andb_true_iff in Hc as [_ Hc]. }
  cbn [mbind result_bind]. fold t. fold mx. fold mn.
  destruct Hmx as [Hlmx _]. destruct Hmn as [Hlmn _].
  rewrite broadcast_same by congruence. cbn [mbind result_bind].
  rewrite safeDenomOf_spec.
  rewrite broadcastRows_same; last first.
  { eapply Forall_impl; [exact Ht|]. intros row [Hrow _]. congruence. }
  cbn [mbind result_bind].
  rewrite broadcastRows_same; last first.
  { apply Forall_fmap. eapply Forall_impl; [exact Ht|]. intros row [Hrow _].
    simpl. rewrite length_zip_with, length_map, length_zip_with. lia. }
  cbn [mbind result_bind mret result_ret]. f_equal. f_equal.
  unfold t. rewrite <- !list_fmap_compose.
  generalize mx, mn. clear. intros mx mn.
  induction customers as [|c cs IH]; [done|].
  simpl. f_equal. exact IH.
Qed.



Lemma reloaded_finite l :
  Forall (fun x => isFinite x = true) l -> map reloaded l = l.
Proof.
  induction 1 as [|x l Hx _ IH]; [done|]. simpl. rewrite IH.
  unfold reloaded. by rewrite Hx.
Qed.



(** ** Worked requests and labels *)

Lemma sampleStore_catalog : catalogAt sampleStore 4%nat sampleProducts.
Proof.
  exists [1%nat; 3%nat]. split; [reflexivity|].
  repeat constructor; (eexists; split; reflexivity).
Qed.

(** The row named "Ada" is found by the query "ADA". *)
Lemma sampleRow_found :
  List.find (rowMatches "ADA") [sampleRow] = Some sampleRow.
Proof.
  change (List.find (rowMatches "ADA") [sampleRow])
    with (if rowMatches "ADA" sampleRow then Some sampleRow else None).
  by replace (rowMatches "ADA" sampleRow) with true by (vm_compute; reflexivity).
Qed.

Lemma lookup_ignores_case_witness :
  recommendationsHandler (fun _ => "") (fun _ _ => "") (fun _ => NaN)
    (Some sampleModel) (Some sampleNormalization)
    (processCustomer <$> [sampleRow]) 4%nat (Some (QString "ADA")) sampleStore
  = recommendationsHandler (fun _ => "") (fun _ _ => "") (fun _ => NaN)
      (Some sampleModel) (Some sampleNormalization)
      (processCustomer <$> [sampleRow]) 4%nat (Some (QString "ada")) sampleStore.
Proof. apply lookup_ignores_case. vm_compute. reflexivity. Defined.

Lemma lookup_by_row_name_witness :
  recommendationsHandler (fun _ => "") (fun _ _ => "") (fun _ => NaN)
    (Some sampleModel) (Some sampleNormalization)
    (processCustomer <$> [sampleRow]) 4%nat (Some (QString "Grace")) sampleStore
  = (send 404 "Customer not found.", sampleStore).
Proof.
  rewrite lookup_by_row_name by discriminate. vm_compute. reflexivity.
Defined.


Lemma no_scores_is_an_error_witness :
  exists e h',
    getRecommendations (fun _ => "") (fun _ _ => "") (fun _ => NaN)
      (Some (fun _ => Ok [])) (Some sampleNormalization)
      (processCustomer sampleRow) 4%nat sampleStore
    = (Throw e, h').
Proof.
  apply (no_scores_is_an_error (fun _ => "") (fun _ _ => "") (fun _ => NaN)
           (fun _ => Ok []) sampleNormalization (processCustomer sampleRow)
           4%nat sampleProducts sampleStore).
  - reflexivity.
  - discriminate.
  - apply sampleStore_catalog.
Defined.

Lemma label_only_targets_witness :
  exists p, sampleProducts !! 0%nat = Some p
            /\ toLowerCase (name p) ∈ labelTargets.
Proof.
  destruct (label_only_targets (fun _ => NaN) sampleProducts
              (oneHotEncoded (processCustomer sampleRow) "Small") 0%nat)
    as (p & Hp & Ht & _).
  - vm_compute. reflexivity.
  - exists p. split; [exact Hp|exact Ht].
Defined.

(** ** The name of a served customer *)
Section named.
Variable numberToString : number -> string.

Lemma find_matches q rows raw :
  List.find (rowMatches q) rows = Some raw -> rowMatches q raw = true.
Proof.
  induction rows as [|r rows IH]; [done|]. simpl.
  destruct (rowMatches q r) eqn:Hr; [by intros [= <-]|exact IH].
Qed.

(** X22: a customer the lookup finds has a non-empty name, equal to the
    requested one up to letter case, so the explanations of an answered
    request greet the customer by the stored name and never by "Valued
    Customer". *)
Theorem served_customer_is_named (rows : list rawCustomer) (q : string)
    (raw : rawCustomer) (customer : object) :
  q <> EmptyString ->
  List.find (rowMatches q) rows = Some raw ->
  extract raw = Ok customer ->
  rowName raw <> EmptyString
  /\ toLowerCase (rowName raw) = toLowerCase q
  /\ greetedName numberToString customer = rowName raw.
Proof.
  intros Hq Hfind. rewrite extract_ok. intros [= <-].
  apply find_matches in Hfind. unfold rowMatches in Hfind.
  apply String.eqb_eq in Hfind.
  assert (rowName raw <> EmptyString) as Hname.
  { intros H0. apply Hq, isEmpty_true.
    by rewrite <- toLowerCase_isEmpty, <- Hfind, H0. }
  split; [done|]. split; [done|].
  unfold greetedName.
  replace (oneHotEncoded (processCustomer raw) _ !! "customerName")
    with (Some (VStr (rowName raw))) by reflexivity.
  simpl. by rewrite isEmpty_false.
Qed.
End named.

Lemma served_customer_is_named_witness :
  exists customer, extract sampleRow = Ok customer
                   /\ greetedName (fun _ => "") customer = "Ada".
Proof.
  eexists. split; [apply extract_ok|].
  destruct (served_customer_is_named (fun _ => "") [sampleRow] "ADA" sampleRow
              _ ltac:(discriminate) sampleRow_found
              (extract_ok sampleRow)) as (_ & _ & ->).
  vm_compute. reflexivity.
Defined.

(** ** Labels that exclude each other *)
Section exclusive.
Variable stringToNumber : string -> number.

Lemma if_mark_lookup_other products target label (b : bool) target' i :
  findIndex target' products = Some i -> target <> target' ->
  (if b then mark products target label else label) !! i = label !! i.
Proof.
  intros Hi Hne. destruct b; [|done]. apply mark_lookup_other.
  intros Hj. by apply (findIndex_distinct target target' products i i Hj Hi).
Qed.

Lemma replicate_zero_not_one n i : replicate n zero !! i <> Some (num_of_Z 1).
Proof. intros [H _]%lookup_replicate. by apply one_not_zero in H. Qed.

(** X23: no customer is labelled with both "Wi-Fi Security" and "Wi-Fi
    Security Plus". *)
Theorem security_labels_exclusive (products : list Product)
    (customer : object) (i j : nat) :
  findIndex "wi-fi security" products = Some i ->
  findIndex "wi-fi security plus" products = Some j ->
  ~ (assignLabel stringToNumber products customer !! i = Some (num_of_Z 1)
     /\ assignLabel stringToNumber products customer !! j = Some (num_of_Z 1)).
Proof.
  intros Hi Hj [Hli Hlj]. unfold assignLabel in Hli, Hlj. cbv zeta in Hli, Hlj.
  destruct (isTruthy (customer !! "wifi_security_plus")) eqn:Hplus.
  - rewrite andb_false_r in Hli. cbn [andb] in Hli.
    rewrite !(if_mark_lookup_other _ _ _ _ _ _ Hi) in Hli by discriminate.
    rewrite (mark_lookup_other _ _ _ _) in Hli.
    * rewrite !(if_mark_lookup_other _ _ _ _ _ _ Hi) in Hli by discriminate.
      destruct (leb _ (num_of_Z 500));
        [|destruct (leb _ (num_of_Z 1000));
          [|destruct (leb _ (num_of_Z 2000));
            [|destruct (leb _ (num_of_Z 5000))]]];
        (rewrite mark_lookup_other in Hli;
           [by apply replicate_zero_not_one in Hli|];
         intros Hk;
         by apply (findIndex_distinct _ _ products i i Hk Hi)).
    * intros Hk.
      by apply (findIndex_distinct _ _ products i i Hk Hi).
  - rewrite !(if_mark_lookup_other _ _ _ _ _ _ Hj) in Hlj by discriminate.
    destruct (leb _ (num_of_Z 500));
      [|destruct (leb _ (num_of_Z 1000));
        [|destruct (leb _ (num_of_Z 2000));
          [|destruct (leb _ (num_of_Z 5000))]]];
      (rewrite mark_lookup_other in Hlj;
         [by apply replicate_zero_not_one in Hlj|];
       intros Hk;
       by apply (findIndex_distinct _ _ products j j Hk Hj)).
Qed.
End exclusive.

Lemma security_labels_exclusive_witness :
  exists i j,
    findIndex "wi-fi security" sampleSecurityProducts = Some i
    /\ findIndex "wi-fi security plus" sampleSecurityProducts = Some j
    /\ ~ (assignLabel (fun _ => NaN) sampleSecurityProducts
            (oneHotEncoded (processCustomer sampleRow) "Small") !! i
          = Some (num_of_Z 1)
          /\ assignLabel (fun _ => NaN) sampleSecurityProducts
               (oneHotEncoded (processCustomer sampleRow) "Small") !! j
             = Some (num_of_Z 1)).
Proof.
  exists 0%nat, 1%nat.
  assert (findIndex "wi-fi security" sampleSecurityProducts = Some 0%nat)
    as Hi by (vm_compute; reflexivity).
  assert (findIndex "wi-fi security plus" sampleSecurityProducts = Some 1%nat)
    as Hj by (vm_compute; reflexivity).
  split; [exact Hi|]. split; [exact Hj|].
  exact (security_labels_exclusive (fun _ => NaN) sampleSecurityProducts
           (oneHotEncoded (processCustomer sampleRow) "Small") 0 1 Hi Hj).
Defined.

(** ** A query value that is not a string *)
Section other_queries.
Variable numberToString : number -> string.
Variable toFixed : number -> nat -> string.
Variable stringToNumber : string -> number.
Variable model : option Model.
Variable normalizationData : option NormalizationData.

Lemma findCustomer_other customers :
  findCustomer QOther customers
  = if existsb (fun c => isTruthy (c !! "customerName")) customers
    then Throw TypeError else Ok None.
Proof.
  induction customers as [|c cs IH]; [done|]. simpl.
  unfold nameMatches.
  destruct (c !! "customerName") as [[n|s]|]; simpl.
  - by destruct (truthy n).
  - by destruct (isEmpty s).
  - done.
Qed.

(** X24: a request whose [customerName] is not a string (a repeated or
    bracketed parameter) is answered with 500 as soon as one loaded customer
    has a name, and with 404 otherwise; the store is left as it was. *)
Theorem other_query_value_is_an_error (customers : list object)
    (products : loc) (h : heap) :
  recommendationsHandler numberToString toFixed stringToNumber
    model normalizationData customers products (Some QOther) h
  = if existsb (fun c => isTruthy (c !! "customerName")) customers
    then (send 500 "Internal server error.", h)
    else (send 404 "Customer not found.", h).
Proof.
  unfold recommendationsHandler. rewrite findCustomer_other.
  by destruct (existsb _ customers).
Qed.
End other_queries.

(** ** The sign of the network speed *)

Lemma speedMatchAt_digits s g1 g2 :
  speedMatchAt s = Some (g1, g2) ->
  exists c g', g1 = String c g' /\ isDigitOrDot c = true.
Proof.
  unfold speedMatchAt.
  destruct (span isDigitOrDot s) as [g rest] eqn:Hs.
  destruct (isEmpty g) eqn:Hg; [done|].
  destruct (span isLetter rest) as [u r]. destruct (isEmpty u); [done|].
  intros [= <- <-]. destruct g as [|c g']; [done|].
  exists c, g'. split; [done|].
  apply span_allChars in Hs. simpl in Hs. by apply andb_true_iff in Hs as [? _].
Qed.

Lemma speedMatch_digits s g1 g2 :
  speedMatch s = Some (g1, g2) ->
  exists c g', g1 = String c g' /\ isDigitOrDot c = true.
Proof.
  induction s as [|c s IH].
  - done.
  - simpl. destruct (speedMatchAt (String c s)) as [m|] eqn:Hat; [|exact IH].
    intros [= ->]. by eapply speedMatchAt_digits.
Qed.


(** ** The fiber tier of a customer without a usable network speed *)
Section top_tier.
Variable stringToNumber : string -> number.

Lemma if_mark_keeps_one products target label (b : bool) i :
  label !! i = Some (num_of_Z 1) ->
  (if b then mark products target label else label) !! i = Some (num_of_Z 1).
Proof.
  intros Hi. destruct b; [|done]. unfold mark.
  destruct (findIndex target products) as [j|]; [|done].
  destruct (decide (j = i)) as [->|Hne].
  - apply list_lookup_insert_eq. by eapply lookup_lt_Some.
  - by rewrite list_lookup_insert_ne.
Qed.

(** X26: a customer whose network speed is missing or not a number (for a
    loaded customer: NaN, when the field's number has no digit) is given the
    highest fiber tier: the first product named "fiber 7 gig", letter case
    aside, is labelled 1. *)
Theorem unknown_speed_gets_top_tier (products : list Product)
    (customer : object) (i : nat) :
  toNumber stringToNumber (customer !! "network_speed") = NaN ->
  findIndex "fiber 7 gig" products = Some i ->
  assignLabel stringToNumber products customer !! i = Some (num_of_Z 1).
Proof.
  intros Hspeed Hi. unfold assignLabel. cbv zeta. rewrite Hspeed.
  change (leb NaN _) with false. cbv iota.
  do 7 apply if_mark_keeps_one.
  unfold mark. rewrite Hi. apply list_lookup_insert_eq.
  rewrite length_replicate.
  apply findIndex_Some in Hi as (p & Hp & _). by eapply lookup_lt_Some.
Qed.
End top_tier.

Lemma unknown_speed_gets_top_tier_witness :
  assignLabel (fun _ => NaN) sampleTiers
    (processCustomer {[ "network_speed" := ".M" ]}) !! 1%nat
  = Some (num_of_Z 1).
Proof.
  assert (toNumber (fun _ => NaN)
            (processCustomer {[ "network_speed" := ".M" ]} !! "network_speed")
          = NaN) as Hspeed by (vm_compute; reflexivity).
  assert (findIndex "fiber 7 gig" sampleTiers = Some 1%nat) as Hi
    by (vm_compute; reflexivity).
  exact (unknown_speed_gets_top_tier (fun _ => NaN) sampleTiers
           (processCustomer {[ "network_speed" := ".M" ]}) 1%nat Hspeed Hi).
Defined.

(** ** The width of the model's input *)

Lemma tensor2d_length values ns :
  tensor2d values = Ok ns -> length ns = length values.
Proof.
  unfold tensor2d. revert ns. induction values as [|v values IH]; intros ns.
  - by intros [= <-].
  - simpl. destruct v as [n|s]; [|done]. simpl.
    destruct (mapM _ values) as [ns'|e]; [|done]. simpl.
    intros [= <-]. simpl. by rewrite (IH ns').
Qed.

Lemma broadcast_length f a b c :
  broadcast f a b = Ok c -> (1 < length a)%nat -> length c = length a.
Proof.
  unfold broadcast. intros H Ha.
  destruct (decide (length a = length b)) as [Hab|Hab].
  - injection H as <-. rewrite length_zip_with. lia.
  - destruct a as [|x [|x' a]]; simpl in Ha; try lia.
    destruct b as [|y [|y' b]]; try done.
    injection H as <-. simpl. by rewrite length_map.
Qed.

Lemma normalizeContinuous_length input nd out :
  normalizeContinuous input nd = Ok out -> (1 < length input)%nat ->
  length out = length input.
Proof.
  unfold normalizeContinuous. intros H Hin.
  destruct (broadcast sub (inputMax nd) (inputMin nd)) as [denom|e]; [|done].
  simpl in H.
  destruct (broadcast sub input (inputMin nd)) as [centered|e] eqn:Hc; [|done].
  simpl in H. apply broadcast_length in Hc; [|done].
  apply broadcast_length in H; [|lia]. lia.
Qed.

Section model_input.
Variable numberToString : number -> string.
Variable toFixed : number -> nat -> string.
Variable stringToNumber : string -> number.

(** X27: the model is only ever given a vector of the schema's width, the
    twelve normalized continuous features followed by the thirteen
    categorical ones: two models that agree on all vectors of that width
    give the same outcome of [getRecommendations], whatever the customer,
    the normalization data and the store. *)
Theorem model_input_width (predict predict' : Model)
    (normalizationData : option NormalizationData) (customer : object)
    (products : loc) (h : heap) :
  (forall input,
     length input = length (continuousFeatures ++ categoricalFeatures) ->
     predict input = predict' input) ->
  getRecommendations numberToString toFixed stringToNumber
    (Some predict) normalizationData customer products h
  = getRecommendations numberToString toFixed stringToNumber
      (Some predict') normalizationData customer products h.
Proof.
  intros Hagree. unfold getRecommendations, lift, mbind, ST_bind.
  destruct (preprocessCustomer customer) as [pc|e]; [|done].
  destruct normalizationData as [nd|]; [|done].
  destruct (tensor2d (map _ continuousFeatures)) as [xs|e] eqn:Hxs; [|done].
  destruct (normalizeContinuous xs nd) as [ns|e] eqn:Hns; [|done].
  destruct (tensor2d (map _ categoricalFeatures)) as [cs|e] eqn:Hcs; [|done].
  apply tensor2d_length in Hxs, Hcs. rewrite length_map in Hxs, Hcs.
  apply normalizeContinuous_length in Hns; [|rewrite Hxs; simpl; lia].
  unfold mret, ST_ret.
  rewrite (Hagree (ns ++ cs)); [done|].
  rewrite !length_app. congruence.
Qed.
End model_input.

Lemma model_input_width_witness :
  getRecommendations (fun _ => "") (fun _ _ => "") (fun _ => NaN)
    (Some sampleModel) (Some sampleNormalization)
    (processCustomer sampleRow) 4%nat sampleStore
  = getRecommendations (fun _ => "") (fun _ _ => "") (fun _ => NaN)
      (Some (fun input =>
               if Nat.eqb (length input) 25 then sampleModel input
               else Throw TensorError))
      (Some sampleNormalization)
      (processCustomer sampleRow) 4%nat sampleStore.
Proof.
  apply model_input_width. intros input Hlen.
  rewrite Hlen. reflexivity.
Defined.

(** ** An empty answer *)
Section empty_answer.
Variable numberToString : number -> string.
Variable toFixed : number -> nat -> string.
Variable stringToNumber : string -> number.

(** X28: with a catalog that is not empty, the list [getRecommendations]
    returns is empty exactly when the normalization data are missing; with
    normalization data a returned list has one entry per catalog item. *)
Theorem empty_answer_iff_no_normalization (model : option Model)
    (normalizationData : option NormalizationData) (customer : object)
    (products : loc) (ps : list Product) (h h' : heap) (out : loc) :
  catalogAt h products ps -> ps <> [] ->
  getRecommendations numberToString toFixed stringToNumber
    model normalizationData customer products h = (Ok out, h') ->
  exists entries, h' !! out = Some (CArray entries)
    /\ (entries = [] <-> normalizationData = None)
    /\ (normalizationData <> None -> length entries = length ps).
Proof.
  intros Hcat Hps Hrun. destruct normalizationData as [nd|].
  - destruct model as [predict|].
    + destruct (getRecommendations_ranked numberToString toFixed stringToNumber
                  (Some predict) nd customer products ps h h' out Hcat Hrun)
        as (pc & scores & _ & entries & Hout & Hentries).
      apply Forall2_length in Hentries.
      rewrite rankedProductsWithExplanations_length in Hentries.
      exists entries. split; [done|]. split; [|done].
      split; [|done]. intros ->. by destruct ps.
    + exfalso. unfold getRecommendations, lift, mbind, ST_bind in Hrun.
      destruct (preprocessCustomer customer) as [pc|e]; [|done].
      destruct (tensor2d _) as [xs|e]; [|done].
      destruct (normalizeContinuous xs nd) as [ns|e]; [|done].
      by destruct (tensor2d _) as [cs|e].
  - unfold getRecommendations, lift, mbind, ST_bind in Hrun.
    destruct (preprocessCustomer customer) as [pc|e]; [|done].
    injection Hrun as <- <-. exists []. split.
    + by rewrite lookup_app_r, Nat.sub_diag by lia.
    + split; [done|]. by intros [].
Qed.
End empty_answer.

Lemma empty_answer_iff_no_normalization_witness :
  exists out h' entries,
    getRecommendations (fun _ => "") (fun _ _ => "") (fun _ => NaN)
      (Some sampleModel) (Some sampleNormalization)
      (processCustomer sampleRow) 4%nat sampleStore = (Ok out, h')
    /\ h' !! out = Some (CArray entries)
    /\ length entries = 2%nat.
Proof.
  destruct (getRecommendations (fun _ => "") (fun _ _ => "") (fun _ => NaN)
              (Some sampleModel) (Some sampleNormalization)
              (processCustomer sampleRow) 4%nat sampleStore)
    as [[out|e] h'] eqn:Hrun; [|vm_compute in Hrun; discriminate Hrun].
  destruct (empty_answer_iff_no_normalization (fun _ => "") (fun _ _ => "")
              (fun _ => NaN) (Some sampleModel) (Some sampleNormalization)
              (processCustomer sampleRow) 4%nat sampleProducts sampleStore
              h' out sampleStore_catalog ltac:(discriminate) Hrun)
    as (entries & Hout & _ & Hlen).
  exists out, h', entries. split; [reflexivity|]. split; [exact Hout|].
  by apply Hlen.
Defined.
